(** * zlog: a pair of zap loggers (access / error) built from functional options

    Shallow embedding of [zlog/zlog.go] and [zlog/options.go].

    The Go code is a thin layer over three external collaborators: zap /
    zapcore (loggers, cores, write syncers, atomic levels), lumberjack (the
    rotating file writer) and multierr (error aggregation inside zapcore).
    Their values are modelled as data (what was constructed, with which
    arguments) together with the small part of their behaviour the package
    relies on: [Write] and [Sync] of the write syncers, the application of
    the zap options when a logger is made, [Sync] of a logger, allocation,
    reading and writing of an atomic level.

    Effects are explicit.  A [World] holds the store of atomic levels and the
    chronological trace of operations that reached an operating-system
    resource (a rotated file, stdout, stderr).  A computation either returns
    a value and a new world, or panics (a nil dereference in Go). *)

From Stdlib Require Import List String ZArith Bool Lia.
Import ListNotations.
Local Open Scope string_scope.
Local Open Scope list_scope.
Local Open Scope Z_scope.

Set Warnings "-register-all".

(** ** Go built-ins *)

Module builtin.

(** A byte slice, as passed to [io.Writer.Write]. *)
Definition bytes := list Byte.byte.

(** [len(p)] as a Go [int]. *)
Definition len {A : Type} (p : list A) : Z := Z.of_nat (List.length p).

(** Non-nil values of the [error] interface that the collaborators hand
    back: a plain error carrying its message, or the aggregate that
    [multierr.Append] builds from two or more plain errors.  The nil
    interface value is [None] of [option error]. *)
Inductive error : Type :=
| errorString (msg : string)
| multiError (causes : list string).

(** The messages of the plain errors inside an error value. *)
Definition causes_of (e : error) : list string :=
  match e with
  | errorString m => [m]
  | multiError ms => ms
  end.

(** [err.Error()]: the message; an aggregate joins its causes with "; ". *)
Definition Error (e : error) : string :=
  match e with
  | errorString m => m
  | multiError ms => String.concat "; " ms
  end.

End builtin.

(** ** Worlds and computations *)

Module os.
(** The two standard streams the package writes to. *)
Inductive File : Type := Stdout | Stderr.
End os.

Module lumberjack.
(** [lumberjack.Logger], the rotation collaborator: only its exported
    configuration fields are set by this package. *)
Record Logger : Type := {
  Filename   : string;
  MaxSize    : Z;
  MaxBackups : Z;
  MaxAge     : Z;
  Compress   : bool
}.
End lumberjack.

Module io.
(** The [io.Writer] values the package hands to [zapcore.AddSync]. *)
Inductive Writer : Type :=
| Discard
| Lumberjack (l : lumberjack.Logger)
| OsFile (f : os.File).
End io.

(** An operation that reached an operating-system resource. *)
Inductive Event : Type :=
| EvWrite (dst : io.Writer) (p : builtin.bytes)
| EvSync (f : os.File).

(** Severity levels are [int8] constants in zapcore; no arithmetic is done
    on them here, so they are integers. *)
Definition Level := Z.

Record World : Type := {
  levels : list Level;   (* the store of atomic levels, by address *)
  trace  : list Event    (* oldest first *)
}.

Definition emit (ev : Event) (w : World) : World :=
  {| levels := levels w; trace := trace w ++ [ev] |}.

(** What the operating system answers.  The outcome of a write or of a
    flush may depend on the destination, on the payload and on everything
    that happened before. *)
Record Env : Type := {
  write_outcome : io.Writer -> builtin.bytes -> list Event -> Z * option builtin.error;
  sync_outcome  : os.File -> list Event -> option builtin.error
}.

Inductive Result (A : Type) : Type :=
| Ok (a : A)
| Panic.
Arguments Ok {A} a.
Arguments Panic {A}.

Definition M (A : Type) : Type := World -> Result (A * World).

Definition ret {A : Type} (a : A) : M A := fun w => Ok (a, w).

Definition bind {A B : Type} (m : M A) (k : A -> M B) : M B :=
  fun w =>
    match m w with
    | Ok (a, w') => k a w'
    | Panic => Panic
    end.

Definition panic {A : Type} : M A := fun _ => Panic.

Notation "x <- m ;; k" := (bind m (fun x => k))
  (at level 61, m at next level, right associativity).
Notation "' pat <- m ;; k" := (bind m (fun x => match x with pat => k end))
  (at level 61, pat pattern, m at next level, right associativity).

(** ** multierr *)

Module multierr.
Import builtin.

(** [multierr.Append(left, right)]: nil is neutral; two failures are
    flattened into one aggregate. *)
Definition Append (left right : option error) : option error :=
  match left, right with
  | None, _ => right
  | _, None => left
  | Some l, Some r => Some (multiError (causes_of l ++ causes_of r))
  end.
End multierr.

(** ** zapcore *)

Module zapcore.
Import builtin.

Definition DebugLevel : Level := -1.
Definition InfoLevel : Level := 0.
Definition WarnLevel : Level := 1.
Definition ErrorLevel : Level := 2.
Definition DPanicLevel : Level := 3.
Definition PanicLevel : Level := 4.
Definition FatalLevel : Level := 5.

Inductive LevelEncoder : Type :=
  CapitalLevelEncoder | LowercaseLevelEncoder | CapitalColorLevelEncoder | LowercaseColorLevelEncoder.
Inductive TimeEncoder : Type :=
  ISO8601TimeEncoder | RFC3339TimeEncoder | RFC3339NanoTimeEncoder
| EpochTimeEncoder | EpochMillisTimeEncoder | EpochNanosTimeEncoder.
Inductive DurationEncoder : Type :=
  SecondsDurationEncoder | NanosDurationEncoder | MillisDurationEncoder | StringDurationEncoder.
Inductive CallerEncoder : Type :=
  ShortCallerEncoder | FullCallerEncoder.
Inductive NameEncoder : Type :=
  FullNameEncoder.

Definition DefaultLineEnding : string := String (Ascii.ascii_of_nat 10) EmptyString.

(** [zapcore.EncoderConfig]; a nil encoder function is [None]. *)
Record EncoderConfig : Type := {
  MessageKey       : string;
  LevelKey         : string;
  TimeKey          : string;
  NameKey          : string;
  CallerKey        : string;
  FunctionKey      : string;
  StacktraceKey    : string;
  SkipLineEnding   : bool;
  LineEnding       : string;
  EncodeLevel      : option LevelEncoder;
  EncodeTime       : option TimeEncoder;
  EncodeDuration   : option DurationEncoder;
  EncodeCaller     : option CallerEncoder;
  EncodeName       : option NameEncoder;
  ConsoleSeparator : string
}.

Inductive Encoder : Type :=
| NewJSONEncoder (cfg : EncoderConfig).

(** [zapcore.WriteSyncer] values.  [writerWrapper] is what [AddSync] puts
    around a writer that has no [Sync] method of its own; [fileSyncer] is
    an [*os.File], which has one; [multiWriteSyncer] is the fan-out.  The
    nil interface value is [None] of [option WriteSyncer]. *)
Inductive WriteSyncer : Type :=
| writerWrapper (w : io.Writer)
| fileSyncer (f : os.File)
| multiWriteSyncer (ws : list WriteSyncer).

(** [zapcore.AddSync]: a writer that already is a write syncer is returned
    as it is, any other is wrapped. *)
Definition AddSync (w : io.Writer) : WriteSyncer :=
  match w with
  | io.OsFile f => fileSyncer f
  | _ => writerWrapper w
  end.

(** [zapcore.NewMultiWriteSyncer]. *)
Definition NewMultiWriteSyncer (ws : list WriteSyncer) : WriteSyncer :=
  match ws with
  | [w] => w
  | _ => multiWriteSyncer ws
  end.

Section Behaviour.
Variable env : Env.

(** [w.Write(p)] on an [io.Writer]: [io.Discard] accepts everything and
    touches nothing; a file or a stream is reached, and answers. *)
Definition Writer_Write (dst : io.Writer) (p : bytes) : M (Z * option error) :=
  match dst with
  | io.Discard => ret (len p, None)
  | _ => fun w => Ok (write_outcome env dst p (trace w), emit (EvWrite dst p) w)
  end.

(** The running count of [multiWriteSyncer.Write]. *)
Definition nWritten_next (nWritten n : Z) : Z :=
  if (nWritten =? 0) && negb (n =? 0) then n
  else if n <? nWritten then n
  else nWritten.

Fixpoint Write (ws : WriteSyncer) (p : bytes) {struct ws} : M (Z * option error) :=
  match ws with
  | writerWrapper dst => Writer_Write dst p
  | fileSyncer f => Writer_Write (io.OsFile f) p
  | multiWriteSyncer l =>
      (fix each (l : list WriteSyncer) (nWritten : Z) (writeErr : option error)
         : M (Z * option error) :=
         match l with
         | [] => ret (nWritten, writeErr)
         | w :: l' =>
             '(n, err) <- Write w p ;;
             each l' (nWritten_next nWritten n) (multierr.Append writeErr err)
         end) l 0 None
  end.

Fixpoint Sync (ws : WriteSyncer) {struct ws} : M (option error) :=
  match ws with
  | writerWrapper _ => ret None
  | fileSyncer f => fun w => Ok (sync_outcome env f (trace w), emit (EvSync f) w)
  | multiWriteSyncer l =>
      (fix each (l : list WriteSyncer) (err : option error) : M (option error) :=
         match l with
         | [] => ret err
         | w :: l' =>
             e <- Sync w ;;
             each l' (multierr.Append err e)
         end) l None
  end.
End Behaviour.

(** [zapcore.LevelEnabler] values: a constant level, or the shared cell of
    a [zap.AtomicLevel]. *)
Inductive LevelEnabler : Type :=
| constLevel (lvl : Level)
| atomicLevel (cell : nat).

(** [zapcore.NewCore(enc, ws, enab)]: the arguments are stored as given,
    also a nil write syncer. *)
Record Core : Type := NewCore {
  enc_of : Encoder;
  out    : option WriteSyncer;
  enab   : LevelEnabler
}.

(** [ioCore.Sync] is [c.out.Sync()]: a nil [out] is dereferenced. *)
Definition Core_Sync (env : Env) (c : Core) : M (option error) :=
  match out c with
  | Some ws => Sync env ws
  | None => panic
  end.

(** [enab.Enabled(lvl)]: a level passes a threshold when it is at least the
    threshold; an atomic level reads its cell first. *)
Definition Enabled (enab : LevelEnabler) (lvl : Level) : M bool :=
  match enab with
  | constLevel l => ret (l <=? lvl)
  | atomicLevel c =>
      fun w =>
        match nth_error (levels w) c with
        | Some l => Ok (l <=? lvl, w)
        | None => Panic
        end
  end.

End zapcore.

(** ** zap *)

Module zap.
Import builtin.

(** [zap.AtomicLevel]: a pointer to a level cell shared by every copy. *)
Record AtomicLevel : Type := { cell : nat }.

Definition enabler (a : AtomicLevel) : zapcore.LevelEnabler :=
  zapcore.atomicLevel (cell a).

(** [zap.NewAtomicLevelAt(l)] allocates a fresh cell holding [l]. *)
Definition NewAtomicLevelAt (lvl : Level) : M AtomicLevel :=
  fun w =>
    Ok ({| cell := List.length (levels w) |},
        {| levels := levels w ++ [lvl]; trace := trace w |}).


(** The store with cell [n] overwritten. *)
Fixpoint set_cell (l : list Level) (n : nat) (lvl : Level) : list Level :=
  match l, n with
  | [], _ => []
  | _ :: r, O => lvl :: r
  | x :: r, S n' => x :: set_cell r n' lvl
  end.

(** [a.SetLevel(l)] overwrites the cell. *)
Definition AtomicLevel_SetLevel (a : AtomicLevel) (lvl : Level) : M unit :=
  fun w =>
    match nth_error (levels w) (cell a) with
    | Some _ =>
        Ok (tt, {| levels := set_cell (levels w) (cell a) lvl; trace := trace w |})
    | None => Panic
    end.

(** [zap.Option] values, by the constructor call that made them.  The first
    five set a field of the logger and leave its core alone; [Custom] stands
    for the other options of the library that do the same ([ErrorOutput],
    [WithClock], [OnFatal], ...).  [NilOption] is the nil interface value.
    [WrapCore f] replaces the core of the logger by what the caller's [f]
    returns for it; [f] is caller code, run when the logger is made.  The
    other core-replacing options of the library ([Hooks], [Fields],
    [IncreaseLevel]) are special cases of it for what is modelled here. *)
Inductive Option : Type :=
| AddCaller
| AddStacktrace (lvl : Level)
| AddCallerSkip (skip : Z)
| WithCaller (enabled : bool)
| Development
| Custom (tag : string)
| NilOption
| WrapCore (f : zapcore.Core -> M zapcore.Core).

(** The options that only set a field of the logger: applying one cannot
    fail, has no effect outside the logger and leaves its core alone. *)
Definition inert (opt : Option) : bool :=
  match opt with
  | NilOption | WrapCore _ => false
  | _ => true
  end.

(** A [zap.Logger] value: its core, and the options it was made with.
    [New core options] is the logger [zap.New(core, options...)] returns
    when the options leave the core alone; [NewLogger] below is the call
    for arbitrary options. *)
Record Logger : Type := New {
  core    : zapcore.Core;
  options : list Option
}.

(** [opt.apply(log)], for what it does to the core of the logger: a nil
    option is dereferenced. *)
Definition apply_core (opt : Option) (c : zapcore.Core) : M zapcore.Core :=
  match opt with
  | NilOption => panic
  | WrapCore f => f c
  | _ => ret c
  end.

(** [for _, opt := range opts { opt.apply(c) }] of [Logger.WithOptions]. *)
Fixpoint WithOptions_core (opts : list Option) (c : zapcore.Core)
  : M zapcore.Core :=
  match opts with
  | [] => ret c
  | opt :: rest =>
      c' <- apply_core opt c ;;
      WithOptions_core rest c'
  end.

(** The call [zap.New(core, options...)]: the options are applied in order
    to a logger on [core]. *)
Definition NewLogger (c : zapcore.Core) (opts : list Option) : M Logger :=
  c' <- WithOptions_core opts c ;;
  ret (New c' opts).

(** [log.Sync()] on a [*zap.Logger] is [log.core.Sync()]: a nil receiver is
    dereferenced. *)
Definition Logger_Sync (env : Env) (log : option Logger) : M (option error) :=
  match log with
  | Some l => zapcore.Core_Sync env (core l)
  | None => panic
  end.

End zap.

(** ** zlog/zlog.go: types *)

Record Pair : Type := {
  Access : option zap.Logger;        (* a pointer: nil is None *)
  Error  : option zap.Logger;        (* a pointer: nil is None *)
  AccessLevel : zap.AtomicLevel;
  ErrorLevel  : zap.AtomicLevel
}.

Record rotateCfg : Type := {
  Path       : string;
  MaxSizeMB  : Z;
  MaxBackups : Z;
  MaxAgeDays : Z;
  Compress   : bool
}.

Record buildCfg : Type := {
  access : rotateCfg;
  error  : rotateCfg;

  consoleStdout : bool;
  consoleStderr : bool;

  enc     : zapcore.EncoderConfig;
  zapOpts : list zap.Option;

  initialAccessLevel : Level;
  initialErrorLevel  : Level
}.

Record syncError : Type := {
  errs : list builtin.error
}.

(** ** zlog/zlog.go: Sync and its failure object *)

(** [append(errs, err)] when [err != nil]. *)
Definition append_if_failed (errs : list builtin.error) (err : option builtin.error)
  : list builtin.error :=
  match err with
  | Some e => errs ++ [e]
  | None => errs
  end.

(** [func (p *Pair) Sync() error]; the result is nil or a pointer to a
    [syncError]. *)
Definition Pair_Sync (env : Env) (p : Pair) : M (option syncError) :=
  let errs := [] in
  errs <- match Access p with
          | Some _ =>
              err <- zap.Logger_Sync env (Access p) ;;
              ret (append_if_failed errs err)
          | None => ret errs
          end ;;
  errs <- match Error p with
          | Some _ =>
              err <- zap.Logger_Sync env (Error p) ;;
              ret (append_if_failed errs err)
          | None => ret errs
          end ;;
  if 0 <? builtin.len errs
  then ret (Some {| errs := errs |})
  else ret None.

(** [func (e *syncError) Error() string]. *)
Definition syncError_Error (e : syncError) : string :=
  if builtin.len (errs e) =? 1 then
    match errs e with
    | e0 :: _ => builtin.Error e0
    | [] => EmptyString   (* e.errs[0] out of range: excluded by the length test *)
    end
  else "multiple sync errors occurred".

(** [func (e *syncError) Unwrap() []error]. *)
Definition syncError_Unwrap (e : syncError) : list builtin.error :=
  errs e.

(** ** zlog/zlog.go: building blocks *)

Definition defaultEncoder : zapcore.EncoderConfig :=
  {| zapcore.MessageKey := "msg";
     zapcore.LevelKey := "level";
     zapcore.TimeKey := "ts";
     zapcore.NameKey := EmptyString;
     zapcore.CallerKey := EmptyString;
     zapcore.FunctionKey := EmptyString;
     zapcore.StacktraceKey := EmptyString;
     zapcore.SkipLineEnding := false;
     zapcore.LineEnding := zapcore.DefaultLineEnding;
     zapcore.EncodeLevel := Some zapcore.CapitalLevelEncoder;
     zapcore.EncodeTime := Some zapcore.ISO8601TimeEncoder;
     zapcore.EncodeDuration := Some zapcore.SecondsDurationEncoder;
     zapcore.EncodeCaller := Some zapcore.ShortCallerEncoder;
     zapcore.EncodeName := None;
     zapcore.ConsoleSeparator := EmptyString |}.

Definition newRotateWriter (c : rotateCfg) : zapcore.WriteSyncer :=
  if String.eqb (Path c) EmptyString
  then zapcore.AddSync io.Discard
  else zapcore.AddSync (io.Lumberjack
         {| lumberjack.Filename := Path c;
            lumberjack.MaxSize := MaxSizeMB c;
            lumberjack.MaxBackups := MaxBackups c;
            lumberjack.MaxAge := MaxAgeDays c;
            lumberjack.Compress := Compress c |}).

Definition makeCore (encCfg : zapcore.EncoderConfig) (ws : option zapcore.WriteSyncer)
    (lvl : zap.AtomicLevel) : zapcore.Core :=
  zapcore.NewCore (zapcore.NewJSONEncoder encCfg) ws (zap.enabler lvl).

Definition tee (ws1 ws2 : option zapcore.WriteSyncer) : option zapcore.WriteSyncer :=
  match ws1, ws2 with
  | None, _ => ws2
  | _, None => ws1
  | Some w1, Some w2 => Some (zapcore.NewMultiWriteSyncer [w1; w2])
  end.

(** ** zlog/options.go *)

(** [type Option func(c *buildCfg)]: a function value of the type, as the
    update it performs on the configuration it is handed.  A value of the
    type as a caller can pass it is an [option Option]: nil is [None]. *)
Definition Option : Type := buildCfg -> buildCfg.

Definition WithAccessFile (path : string) (maxSizeMB maxBackups maxAgeDays : Z)
    (compress : bool) : Option :=
  fun c =>
    let maxSizeMB := if maxSizeMB <? 0 then 0 else maxSizeMB in
    let maxBackups := if maxBackups <? 0 then 0 else maxBackups in
    let maxAgeDays := if maxAgeDays <? 0 then 0 else maxAgeDays in
    {| access := {| Path := path;
                    MaxSizeMB := maxSizeMB;
                    MaxBackups := maxBackups;
                    MaxAgeDays := maxAgeDays;
                    Compress := compress |};
       error := error c;
       consoleStdout := consoleStdout c;
       consoleStderr := consoleStderr c;
       enc := enc c;
       zapOpts := zapOpts c;
       initialAccessLevel := initialAccessLevel c;
       initialErrorLevel := initialErrorLevel c |}.

Definition WithErrorFile (path : string) (maxSizeMB maxBackups maxAgeDays : Z)
    (compress : bool) : Option :=
  fun c =>
    let maxSizeMB := if maxSizeMB <? 0 then 0 else maxSizeMB in
    let maxBackups := if maxBackups <? 0 then 0 else maxBackups in
    let maxAgeDays := if maxAgeDays <? 0 then 0 else maxAgeDays in
    {| access := access c;
       error := {| Path := path;
                   MaxSizeMB := maxSizeMB;
                   MaxBackups := maxBackups;
                   MaxAgeDays := maxAgeDays;
                   Compress := compress |};
       consoleStdout := consoleStdout c;
       consoleStderr := consoleStderr c;
       enc := enc c;
       zapOpts := zapOpts c;
       initialAccessLevel := initialAccessLevel c;
       initialErrorLevel := initialErrorLevel c |}.

Definition WithConsoleForAccess (enable : bool) : Option :=
  fun c =>
    {| access := access c;
       error := error c;
       consoleStdout := enable;
       consoleStderr := consoleStderr c;
       enc := enc c;
       zapOpts := zapOpts c;
       initialAccessLevel := initialAccessLevel c;
       initialErrorLevel := initialErrorLevel c |}.

Definition WithConsoleForError (enable : bool) : Option :=
  fun c =>
    {| access := access c;
       error := error c;
       consoleStdout := consoleStdout c;
       consoleStderr := enable;
       enc := enc c;
       zapOpts := zapOpts c;
       initialAccessLevel := initialAccessLevel c;
       initialErrorLevel := initialErrorLevel c |}.

Definition WithInitialLevels (access_ err : Level) : Option :=
  fun c =>
    {| access := access c;
       error := error c;
       consoleStdout := consoleStdout c;
       consoleStderr := consoleStderr c;
       enc := enc c;
       zapOpts := zapOpts c;
       initialAccessLevel := access_;
       initialErrorLevel := err |}.

Definition WithEncoder (enc_ : zapcore.EncoderConfig) : Option :=
  fun c =>
    {| access := access c;
       error := error c;
       consoleStdout := consoleStdout c;
       consoleStderr := consoleStderr c;
       enc := enc_;
       zapOpts := zapOpts c;
       initialAccessLevel := initialAccessLevel c;
       initialErrorLevel := initialErrorLevel c |}.

Definition WithZapOptions (opts : list zap.Option) : Option :=
  fun c =>
    {| access := access c;
       error := error c;
       consoleStdout := consoleStdout c;
       consoleStderr := consoleStderr c;
       enc := enc c;
       zapOpts := zapOpts c ++ opts;
       initialAccessLevel := initialAccessLevel c;
       initialErrorLevel := initialErrorLevel c |}.

(** ** zlog/zlog.go: New *)

(** The configuration [New] starts from (the composite literal of its first
    statement). *)
Definition initialCfg : buildCfg :=
  {| access := {| Path := EmptyString; MaxSizeMB := 0; MaxBackups := 0; MaxAgeDays := 0;
                  Compress := false |};
     error := {| Path := EmptyString; MaxSizeMB := 0; MaxBackups := 0; MaxAgeDays := 0;
                 Compress := false |};
     consoleStdout := false;
     consoleStderr := false;
     enc := defaultEncoder;
     initialAccessLevel := zapcore.InfoLevel;
     initialErrorLevel := zapcore.ErrorLevel;
     zapOpts := [] |}.

(** [for _, o := range opts { o(&cfg) }]. *)
Definition applyOptions (opts : list Option) (cfg : buildCfg) : buildCfg :=
  fold_left (fun c o => o c) opts cfg.

(** [func New(opts ...Option)], returning a [Pair] pointer and an error,
    on options that are function values (not nil) and with the loggers as
    [zap.New] is asked to make them.  [New_run] below is the call on
    arbitrary arguments: it meets nil options, and runs the zap options when
    it makes the loggers. *)
Definition New (opts : list Option) : M (Pair * option builtin.error) :=
  let cfg := initialCfg in
  let cfg := applyOptions opts cfg in
  (* levels *)
  accessLevel <- zap.NewAtomicLevelAt (initialAccessLevel cfg) ;;
  errorLevel <- zap.NewAtomicLevelAt (initialErrorLevel cfg) ;;
  (* writers *)
  let accessFile := Some (newRotateWriter (access cfg)) in
  let errorFile := Some (newRotateWriter (error cfg)) in
  let accessConsole :=
    if consoleStdout cfg then Some (zapcore.AddSync (io.OsFile os.Stdout)) else None in
  let errorConsole :=
    if consoleStderr cfg then Some (zapcore.AddSync (io.OsFile os.Stderr)) else None in
  (* cores (tee: file + console) *)
  let accessCore := makeCore (enc cfg) (tee accessFile accessConsole) accessLevel in
  let errorCore := makeCore (enc cfg) (tee errorFile errorConsole) errorLevel in
  let errOpts := [zap.AddCaller; zap.AddStacktrace zapcore.ErrorLevel] ++ zapOpts cfg in
  let access_ := zap.New accessCore (zapOpts cfg) in
  let errorL := zap.New errorCore errOpts in
  ret ({| Access := Some access_;
          Error := Some errorL;
          AccessLevel := accessLevel;
          ErrorLevel := errorLevel |}, None).

(** [for _, o := range opts { o(&cfg) }] on option values as a caller can
    pass them: calling a nil function panics. *)
Fixpoint callOptions (opts : list (option Option)) (cfg : buildCfg) : M buildCfg :=
  match opts with
  | [] => ret cfg
  | Some o :: rest => callOptions rest (o cfg)
  | None :: _ => panic
  end.

(** [func New(opts ...Option)] as it runs. *)
Definition New_run (opts : list (option Option)) : M (Pair * option builtin.error) :=
  let cfg := initialCfg in
  cfg <- callOptions opts cfg ;;
  (* levels *)
  accessLevel <- zap.NewAtomicLevelAt (initialAccessLevel cfg) ;;
  errorLevel <- zap.NewAtomicLevelAt (initialErrorLevel cfg) ;;
  (* writers *)
  let accessFile := Some (newRotateWriter (access cfg)) in
  let errorFile := Some (newRotateWriter (error cfg)) in
  let accessConsole :=
    if consoleStdout cfg then Some (zapcore.AddSync (io.OsFile os.Stdout)) else None in
  let errorConsole :=
    if consoleStderr cfg then Some (zapcore.AddSync (io.OsFile os.Stderr)) else None in
  (* cores (tee: file + console) *)
  let accessCore := makeCore (enc cfg) (tee accessFile accessConsole) accessLevel in
  let errorCore := makeCore (enc cfg) (tee errorFile errorConsole) errorLevel in
  let errOpts := [zap.AddCaller; zap.AddStacktrace zapcore.ErrorLevel] ++ zapOpts cfg in
  access_ <- zap.NewLogger accessCore (zapOpts cfg) ;;
  errorL <- zap.NewLogger errorCore errOpts ;;
  ret ({| Access := Some access_;
          Error := Some errorL;
          AccessLevel := accessLevel;
          ErrorLevel := errorLevel |}, None).

(** ** Vocabulary for the statements *)

(** The fields of [buildCfg], the type each one holds, and its projection. *)
Inductive Field : Type :=
| f_access | f_error
| f_consoleStdout | f_consoleStderr
| f_enc | f_zapOpts
| f_initialAccessLevel | f_initialErrorLevel.

Definition FieldT (f : Field) : Type :=
  match f with
  | f_access | f_error => rotateCfg
  | f_consoleStdout | f_consoleStderr => bool
  | f_enc => zapcore.EncoderConfig
  | f_zapOpts => list zap.Option
  | f_initialAccessLevel | f_initialErrorLevel => Level
  end.

Definition field (f : Field) (c : buildCfg) : FieldT f :=
  match f with
  | f_access => access c
  | f_error => error c
  | f_consoleStdout => consoleStdout c
  | f_consoleStderr => consoleStderr c
  | f_enc => enc c
  | f_zapOpts => zapOpts c
  | f_initialAccessLevel => initialAccessLevel c
  | f_initialErrorLevel => initialErrorLevel c
  end.

(** A call of one of the seven option constructors of options.go, with its
    arguments. *)
Inductive OptionCall : Type :=
| CallWithAccessFile (path : string) (maxSizeMB maxBackups maxAgeDays : Z) (compress : bool)
| CallWithErrorFile (path : string) (maxSizeMB maxBackups maxAgeDays : Z) (compress : bool)
| CallWithConsoleForAccess (enable : bool)
| CallWithConsoleForError (enable : bool)
| CallWithInitialLevels (access_ err : Level)
| CallWithEncoder (enc_ : zapcore.EncoderConfig)
| CallWithZapOptions (opts : list zap.Option).

(** The option value the call returns. *)
Definition call (o : OptionCall) : Option :=
  match o with
  | CallWithAccessFile p a b c z => WithAccessFile p a b c z
  | CallWithErrorFile p a b c z => WithErrorFile p a b c z
  | CallWithConsoleForAccess b => WithConsoleForAccess b
  | CallWithConsoleForError b => WithConsoleForError b
  | CallWithInitialLevels a e => WithInitialLevels a e
  | CallWithEncoder e => WithEncoder e
  | CallWithZapOptions l => WithZapOptions l
  end.

(** The fields the closure of each constructor assigns to. *)
Definition touches (o : OptionCall) (f : Field) : bool :=
  match o, f with
  | CallWithAccessFile _ _ _ _ _, f_access => true
  | CallWithErrorFile _ _ _ _ _, f_error => true
  | CallWithConsoleForAccess _, f_consoleStdout => true
  | CallWithConsoleForError _, f_consoleStderr => true
  | CallWithInitialLevels _ _, f_initialAccessLevel => true
  | CallWithInitialLevels _ _, f_initialErrorLevel => true
  | CallWithEncoder _, f_enc => true
  | CallWithZapOptions _, f_zapOpts => true
  | _, _ => false
  end.

(** The last call of the list that touches [f], if any. *)
Fixpoint lastTouching (f : Field) (opts : list OptionCall) : option OptionCall :=
  match opts with
  | [] => None
  | o :: rest =>
      match lastTouching f rest with
      | Some o' => Some o'
      | None => if touches o f then Some o else None
      end
  end.

(** The zap options handed to the [WithZapOptions] calls of the list, in
    call order. *)
Fixpoint zapArgs (opts : list OptionCall) : list zap.Option :=
  match opts with
  | [] => []
  | CallWithZapOptions l :: rest => l ++ zapArgs rest
  | _ :: rest => zapArgs rest
  end.

(** Writing each payload of [ps] in turn to the same destination. *)
Fixpoint WriteAll (env : Env) (ws : zapcore.WriteSyncer) (ps : list builtin.bytes)
  : M (list (Z * option builtin.error)) :=
  match ps with
  | [] => ret []
  | p :: rest =>
      r <- zapcore.Write env ws p ;;
      rs <- WriteAll env ws rest ;;
      ret (r :: rs)
  end.

(** The trace a computation leaves when it returns. *)
Definition traceOf {A : Type} (r : Result (A * World)) : option (list Event) :=
  match r with
  | Ok (_, w) => Some (trace w)
  | Panic => None
  end.

(** The flush [Sync] performs for one logger field: that of the logger when
    the field is not nil, nothing otherwise. *)
Definition flushIfPresent (env : Env) (log : option zap.Logger)
  : M (option builtin.error) :=
  match log with
  | Some _ => zap.Logger_Sync env log
  | None => ret None
  end.

(** The failure object [Sync] wraps a single flush result in. *)
Definition wrapSingle (err : option builtin.error) : option syncError :=
  match err with
  | Some e => Some {| errs := [e] |}
  | None => None
  end.

(** The world after [New]: two more level cells, nothing else. *)
Definition afterNew (cfg : buildCfg) (w : World) : World :=
  {| levels := (levels w ++ [initialAccessLevel cfg]) ++ [initialErrorLevel cfg];
     trace := trace w |}.

(** The pair [New] assembles from a folded configuration, in a world that
    holds [n] level cells. *)
Definition builtPair (cfg : buildCfg) (n : nat) : Pair :=
  let accessLevel := {| zap.cell := n |} in
  let errorLevel := {| zap.cell := S n |} in
  {| Access := Some (zap.New
       (makeCore (enc cfg)
          (tee (Some (newRotateWriter (access cfg)))
               (if consoleStdout cfg then Some (zapcore.fileSyncer os.Stdout) else None))
          accessLevel)
       (zapOpts cfg));
     Error := Some (zap.New
       (makeCore (enc cfg)
          (tee (Some (newRotateWriter (error cfg)))
               (if consoleStderr cfg then Some (zapcore.fileSyncer os.Stderr) else None))
          errorLevel)
       (zap.AddCaller :: zap.AddStacktrace zapcore.ErrorLevel :: zapOpts cfg));
     AccessLevel := accessLevel;
     ErrorLevel := errorLevel |}.

(** A stored numeric rotation field against the input it came from. *)
Definition clamped (input stored : Z) : Prop :=
  (0 <= input -> stored = input) /\ (input < 0 -> stored = 0).

(** Induction on write syncers that reaches the branches of a fan-out. *)
Fixpoint WriteSyncer_nested_ind (P : zapcore.WriteSyncer -> Prop)
    (Hwrap : forall dst, P (zapcore.writerWrapper dst))
    (Hfile : forall f, P (zapcore.fileSyncer f))
    (Hmulti : forall l, Forall P l -> P (zapcore.multiWriteSyncer l))
    (ws : zapcore.WriteSyncer) {struct ws} : P ws :=
  match ws with
  | zapcore.writerWrapper dst => Hwrap dst
  | zapcore.fileSyncer f => Hfile f
  | zapcore.multiWriteSyncer l =>
      Hmulti l
        ((fix branches (l : list zapcore.WriteSyncer) : Forall P l :=
            match l with
            | [] => Forall_nil P
            | x :: r =>
                Forall_cons x (WriteSyncer_nested_ind P Hwrap Hfile Hmulti x)
                  (branches r)
            end) l)
  end.

(** The loop of [multiWriteSyncer.Sync], from a given accumulator. *)
Definition Sync_each (env : Env) :=
  fix each (l : list zapcore.WriteSyncer) (err : option builtin.error)
    : M (option builtin.error) :=
    match l with
    | [] => ret err
    | w :: l' =>
        e <- zapcore.Sync env w ;;
        each l' (multierr.Append err e)
    end.

(** The loop of [multiWriteSyncer.Write], from given accumulators. *)
Definition Write_each (env : Env) (p : builtin.bytes) :=
  fix each (l : list zapcore.WriteSyncer) (nWritten : Z)
      (writeErr : option builtin.error) : M (Z * option builtin.error) :=
    match l with
    | [] => ret (nWritten, writeErr)
    | w :: l' =>
        '(n, err) <- zapcore.Write env w p ;;
        each l' (zapcore.nWritten_next nWritten n) (multierr.Append writeErr err)
    end.

(** The rotation collaborator [newRotateWriter] configures for a non-empty
    path. *)
Definition rotator (c : rotateCfg) : lumberjack.Logger :=
  {| lumberjack.Filename := Path c;
     lumberjack.MaxSize := MaxSizeMB c;
     lumberjack.MaxBackups := MaxBackups c;
     lumberjack.MaxAge := MaxAgeDays c;
     lumberjack.Compress := Compress c |}.

(** The events one write of [p] leaves: on the file side, and on the
    console side. *)
Definition fileWrites (c : rotateCfg) (p : builtin.bytes) : list Event :=
  if String.eqb (Path c) EmptyString then []
  else [EvWrite (io.Lumberjack (rotator c)) p].

Definition consoleWrites (enabled : bool) (f : os.File) (p : builtin.bytes)
  : list Event :=
  if enabled then [EvWrite (io.OsFile f) p] else [].

(** The events one flush leaves on the console side. *)
Definition consoleSyncs (enabled : bool) (f : os.File) : list Event :=
  if enabled then [EvSync f] else [].

(** The numeric fields of a rotation configuration are not negative. *)
Definition rotation_nonneg (c : rotateCfg) : Prop :=
  0 <= MaxSizeMB c /\ 0 <= MaxBackups c /\ 0 <= MaxAgeDays c.

(** The argument of the last [WithEncoder] call of the list, [dflt] without
    one. *)
Fixpoint lastEncoder (opts : list OptionCall) (dflt : zapcore.EncoderConfig)
  : zapcore.EncoderConfig :=
  match opts with
  | [] => dflt
  | CallWithEncoder e :: rest => lastEncoder rest e
  | _ :: rest => lastEncoder rest dflt
  end.


(** No field is touched by both calls. *)
Definition disjointCalls (o1 o2 : OptionCall) : bool :=
  forallb (fun f => negb (touches o1 f && touches o2 f))
    [f_access; f_error; f_consoleStdout; f_consoleStderr; f_enc; f_zapOpts;
     f_initialAccessLevel; f_initialErrorLevel].

(** ** Concrete data

    Worlds, pairs and option lists on which the statements are exercised. *)

(** An environment in which flushing stdout fails (as it does on a
    terminal) and everything else succeeds. *)
Definition env_stdout_fails : Env :=
  {| write_outcome := fun _ p _ => (builtin.len p, None);
     sync_outcome := fun f _ =>
       match f with
       | os.Stdout => Some (builtin.errorString "sync /dev/stdout: invalid argument")
       | os.Stderr => None
       end |}.

(** An environment in which flushing either standard stream fails. *)
Definition env_both_fail : Env :=
  {| write_outcome := fun _ p _ => (builtin.len p, None);
     sync_outcome := fun f _ =>
       match f with
       | os.Stdout => Some (builtin.errorString "sync /dev/stdout: invalid argument")
       | os.Stderr => Some (builtin.errorString "sync /dev/stderr: invalid argument")
       end |}.

Definition emptyWorld : World := {| levels := []; trace := [] |}.

(** The pair [New] builds, in the empty world, with both consoles enabled. *)
Definition consolePair : Pair :=
  builtPair
    (applyOptions [WithConsoleForAccess true; WithConsoleForError true] initialCfg) 0.

(** The same pair with its access logger set to nil. *)
Definition errorOnlyPair : Pair :=
  {| Access := None;
     Error := Error consolePair;
     AccessLevel := AccessLevel consolePair;
     ErrorLevel := ErrorLevel consolePair |}.

(** A logger on a core that was given no destination, as
    [zap.New(zapcore.NewCore(enc, nil, lvl))] makes it, and a pair that
    holds it. *)
Definition noDestinationLogger : zap.Logger :=
  zap.New (makeCore defaultEncoder None {| zap.cell := 0 |}) [].

Definition noDestinationPair : Pair :=
  {| Access := Some noDestinationLogger;
     Error := None;
     AccessLevel := {| zap.cell := 0 |};
     ErrorLevel := {| zap.cell := 1 |} |}.

(** A function for [zap.WrapCore]: the core it returns writes to stderr
    only and lets every level at or above error through, whatever the core
    it is handed. *)
Definition stderrOnlyCore (c : zapcore.Core) : M zapcore.Core :=
  ret (zapcore.NewCore (zapcore.enc_of c)
         (Some (zapcore.fileSyncer os.Stderr))
         (zapcore.constLevel zapcore.ErrorLevel)).

(** An encoder configuration other than the default one. *)
Definition lowercaseEncoder : zapcore.EncoderConfig :=
  {| zapcore.MessageKey := "message";
     zapcore.LevelKey := "level";
     zapcore.TimeKey := "timestamp";
     zapcore.NameKey := EmptyString;
     zapcore.CallerKey := EmptyString;
     zapcore.FunctionKey := EmptyString;
     zapcore.StacktraceKey := EmptyString;
     zapcore.SkipLineEnding := false;
     zapcore.LineEnding := EmptyString;
     zapcore.EncodeLevel := Some zapcore.LowercaseLevelEncoder;
     zapcore.EncodeTime := Some zapcore.RFC3339TimeEncoder;
     zapcore.EncodeDuration := None;
     zapcore.EncodeCaller := None;
     zapcore.EncodeName := None;
     zapcore.ConsoleSeparator := EmptyString |}.

(** Two [WithZapOptions] calls in a row. *)
Definition twoZapOptionCalls : list OptionCall :=
  [CallWithZapOptions [zap.AddCallerSkip 1];
   CallWithZapOptions [zap.Development]].

(** * Properties *)

(** ** Shared lemmas *)

Lemma applyOptions_cons (o : Option) (opts : list Option) (c : buildCfg) :
  applyOptions (o :: opts) c = applyOptions opts (o c).
Proof. reflexivity. Qed.

(** [New] computes, without failing, the pair of [builtPair]. *)
Lemma New_computes (opts : list Option) (w : World) :
  let cfg := applyOptions opts initialCfg in
  New opts w = Ok ((builtPair cfg (List.length (levels w)), None), afterNew cfg w).
Proof.
  cbv zeta. unfold New, builtPair, afterNew, bind, ret, zap.NewAtomicLevelAt. cbn.
  rewrite length_app. cbn. rewrite Nat.add_1_r. reflexivity.
Qed.

Example New_with_consoles :
  New [WithConsoleForAccess true; WithConsoleForError true] emptyWorld
  = Ok ((consolePair, None), {| levels := [0; 2]; trace := [] |}).
Proof. reflexivity. Qed.

Lemma nth_error_snoc2 {A : Type} (l : list A) (x y : A) :
  nth_error ((l ++ [x]) ++ [y]) (List.length l) = Some x.
Proof. induction l; cbn; auto. Qed.

Lemma nth_error_snoc2' {A : Type} (l : list A) (x y : A) :
  nth_error ((l ++ [x]) ++ [y]) (S (List.length l)) = Some y.
Proof. induction l; cbn; auto. Qed.

(** ** Sync *)

(** [Pair_Sync] once the flushes of its two fields are known to return. *)
Lemma Pair_Sync_outcome (env : Env) (p : Pair) (w w1 w2 : World)
    (ra re : option builtin.error) :
  flushIfPresent env (Access p) w = Ok (ra, w1) ->
  flushIfPresent env (Error p) w1 = Ok (re, w2) ->
  Pair_Sync env p w =
  Ok (let errs := append_if_failed (append_if_failed [] ra) re in
      if 0 <? builtin.len errs then Some {| errs := errs |} else None, w2).
Proof.
  unfold Pair_Sync, flushIfPresent, bind, ret.
  destruct (Access p) as [a|], (Error p) as [e|]; intros Hra Hre.
  - rewrite Hra, Hre. cbv zeta. destruct (0 <? _); reflexivity.
  - rewrite Hra. injection Hre as <- <-. cbv zeta. destruct (0 <? _); reflexivity.
  - injection Hra as <- <-. rewrite Hre. cbv zeta. destruct (0 <? _); reflexivity.
  - injection Hra as <- <-. injection Hre as <- <-. reflexivity.
Qed.

(** [Pair_Sync] when only the error logger is present. *)
Lemma Pair_Sync_error_only (env : Env) (p : Pair) (e : zap.Logger) (w w' : World)
    (re : option builtin.error) :
  Access p = None -> Error p = Some e ->
  zap.Logger_Sync env (Some e) w = Ok (re, w') ->
  Pair_Sync env p w = Ok (wrapSingle re, w').
Proof.
  intros Ha He Hre. unfold Pair_Sync, bind, ret. rewrite Ha, He, Hre.
  destruct re; reflexivity.
Qed.

(** [Pair_Sync] when only the access logger is present. *)
Lemma Pair_Sync_access_only (env : Env) (p : Pair) (a : zap.Logger) (w w' : World)
    (ra : option builtin.error) :
  Access p = Some a -> Error p = None ->
  zap.Logger_Sync env (Some a) w = Ok (ra, w') ->
  Pair_Sync env p w = Ok (wrapSingle ra, w').
Proof.
  intros Ha He Hra. unfold Pair_Sync, bind, ret. rewrite Ha, He, Hra.
  destruct ra; reflexivity.
Qed.

(** A nil logger pointer cannot be flushed: the call dereferences it. *)
Lemma Logger_Sync_nil (env : Env) (w : World) :
  zap.Logger_Sync env None w = Panic.
Proof. reflexivity. Qed.

(** C1. For every pair, whenever the flush of the access logger returns
    [ra] and, from the world it leaves, the flush of the error logger
    returns [re], [Sync] returns in the world left by the second flush --
    both flushes were run, whatever the first one answered -- and: with no
    failure it returns nil; with exactly one failure it returns a failure
    object whose message is that failure's message; with two it returns a
    failure object whose message is the generic summary and whose [Unwrap]
    gives the two failures, in order. *)
Theorem Sync_attempts_both_and_aggregates
    (env : Env) (p : Pair) (w w1 w2 : World) (ra re : option builtin.error) :
  flushIfPresent env (Access p) w = Ok (ra, w1) ->
  flushIfPresent env (Error p) w1 = Ok (re, w2) ->
  exists r : option syncError,
    Pair_Sync env p w = Ok (r, w2) /\
    match ra, re with
    | None, None => r = None
    | Some x, None | None, Some x =>
        exists se, r = Some se /\
          syncError_Error se = builtin.Error x /\
          syncError_Unwrap se = [x]
    | Some x, Some y =>
        exists se, r = Some se /\
          syncError_Error se = "multiple sync errors occurred" /\
          syncError_Unwrap se = [x; y]
    end.
Proof.
  intros Hra Hre.
  rewrite (Pair_Sync_outcome env p w w1 w2 ra re Hra Hre).
  destruct ra as [x|], re as [y|]; cbn; eexists; split; try reflexivity;
    eexists; repeat split; reflexivity.
Qed.

(** C10, amended. [Sync] never dereferences a nil logger field: if the flush of every
    logger that is present returns, [Sync] returns; with both fields nil it
    returns nil and leaves the world alone; with one field nil its outcome
    is that of the flush of the other logger alone. *)
Theorem Sync_skips_nil_loggers (env : Env) (p : Pair) (w : World) :
  (forall l w0, Access p = Some l \/ Error p = Some l ->
     zap.Logger_Sync env (Some l) w0 <> Panic) ->
  (exists r w', Pair_Sync env p w = Ok (r, w')) /\
  (Access p = None -> Error p = None -> Pair_Sync env p w = Ok (None, w)) /\
  (forall e re w', Access p = None -> Error p = Some e ->
     zap.Logger_Sync env (Some e) w = Ok (re, w') ->
     Pair_Sync env p w = Ok (wrapSingle re, w')) /\
  (forall a ra w', Access p = Some a -> Error p = None ->
     zap.Logger_Sync env (Some a) w = Ok (ra, w') ->
     Pair_Sync env p w = Ok (wrapSingle ra, w')).
Proof.
  intros Hret. repeat split.
  - destruct (Access p) as [a|] eqn:Ha, (Error p) as [e|] eqn:He.
    + destruct (zap.Logger_Sync env (Some a) w) as [[ra w1]|] eqn:Hra;
        [|exfalso; exact (Hret a w (or_introl eq_refl) Hra)].
      destruct (zap.Logger_Sync env (Some e) w1) as [[re w2]|] eqn:Hre;
        [|exfalso; exact (Hret e w1 (or_intror eq_refl) Hre)].
      eexists; exists w2. apply (Pair_Sync_outcome env p w w1 w2 ra re).
      * rewrite Ha. exact Hra.
      * rewrite He. exact Hre.
    + destruct (zap.Logger_Sync env (Some a) w) as [[ra w1]|] eqn:Hra;
        [|exfalso; exact (Hret a w (or_introl eq_refl) Hra)].
      rewrite (Pair_Sync_access_only env p a w w1 ra Ha He Hra).
      do 2 eexists; reflexivity.
    + destruct (zap.Logger_Sync env (Some e) w) as [[re w1]|] eqn:Hre;
        [|exfalso; exact (Hret e w (or_intror eq_refl) Hre)].
      rewrite (Pair_Sync_error_only env p e w w1 re Ha He Hre).
      do 2 eexists; reflexivity.
    + exists None, w. unfold Pair_Sync. rewrite Ha, He. reflexivity.
  - intros Ha He. unfold Pair_Sync. rewrite Ha, He. reflexivity.
  - intros e re w' Ha He Hre. eapply Pair_Sync_error_only; eauto.
  - intros a ra w' Ha He Hra. eapply Pair_Sync_access_only; eauto.
Qed.

Lemma Sync_attempts_both_and_aggregates_witness :
  exists r : option syncError,
    Pair_Sync env_stdout_fails consolePair emptyWorld =
      Ok (r, {| levels := []; trace := [EvSync os.Stdout; EvSync os.Stderr] |}) /\
    exists se, r = Some se /\
      syncError_Error se = "sync /dev/stdout: invalid argument" /\
      syncError_Unwrap se =
        [builtin.errorString "sync /dev/stdout: invalid argument"].
Proof.
  exact (Sync_attempts_both_and_aggregates env_stdout_fails consolePair
           emptyWorld
           {| levels := []; trace := [EvSync os.Stdout] |}
           {| levels := []; trace := [EvSync os.Stdout; EvSync os.Stderr] |}
           (Some (builtin.errorString "sync /dev/stdout: invalid argument")) None
           eq_refl eq_refl).
Defined.

(** Both flushes fail: the summary message, and both failures behind it. *)
Example Sync_both_fail :
  Pair_Sync env_both_fail consolePair emptyWorld =
  Ok (Some {| errs := [builtin.errorString "sync /dev/stdout: invalid argument";
                       builtin.errorString "sync /dev/stderr: invalid argument"] |},
      {| levels := []; trace := [EvSync os.Stdout; EvSync os.Stderr] |}).
Proof. reflexivity. Qed.

Lemma Sync_skips_nil_loggers_witness :
  (exists r w', Pair_Sync env_both_fail errorOnlyPair emptyWorld = Ok (r, w')) /\
  Pair_Sync env_both_fail errorOnlyPair emptyWorld =
    Ok (Some {| errs := [builtin.errorString "sync /dev/stderr: invalid argument"] |},
        {| levels := []; trace := [EvSync os.Stderr] |}).
Proof.
  assert (Hret : forall l w0,
            Access errorOnlyPair = Some l \/ Error errorOnlyPair = Some l ->
            zap.Logger_Sync env_both_fail (Some l) w0 <> Panic).
  { intros l w0 [H | H]; [discriminate H|].
    injection H as <-. cbn. discriminate. }
  destruct (Sync_skips_nil_loggers env_both_fail errorOnlyPair emptyWorld Hret)
    as [Htotal [_ [Herr _]]].
  split; [exact Htotal|].
  exact (Herr _ _ _ eq_refl eq_refl eq_refl).
Defined.

(** C10, as stated, fails on a pair that holds a logger whose core has no
    destination: the flush of that logger dereferences the nil destination,
    and [Sync] panics with it. *)
Lemma Sync_not_total_on_every_Pair :
  Pair_Sync env_both_fail noDestinationPair emptyWorld = Panic /\
  ~ (exists r w', Pair_Sync env_both_fail noDestinationPair emptyWorld = Ok (r, w')).
Proof.
  split; [reflexivity|]. intros [r [w' H]]. discriminate H.
Qed.

(** ** Options *)

Lemma clamp_clamped (n : Z) : clamped n (if n <? 0 then 0 else n).
Proof. unfold clamped. destruct (Z.ltb_spec n 0); lia. Qed.

(** C2. [WithAccessFile] and [WithErrorFile] store the path and the compress
    flag as given and each numeric input as given when it is not negative,
    as 0 when it is; the other rotation configuration is left alone; a
    construction with such options returns without an error. *)
Theorem rotation_inputs_clamped
    (path : string) (maxSizeMB maxBackups maxAgeDays : Z) (compress : bool)
    (c : buildCfg) :
  let a := access (WithAccessFile path maxSizeMB maxBackups maxAgeDays compress c) in
  let e := error (WithErrorFile path maxSizeMB maxBackups maxAgeDays compress c) in
  (Path a = path /\ Compress a = compress /\
   clamped maxSizeMB (MaxSizeMB a) /\
   clamped maxBackups (MaxBackups a) /\
   clamped maxAgeDays (MaxAgeDays a)) /\
  (Path e = path /\ Compress e = compress /\
   clamped maxSizeMB (MaxSizeMB e) /\
   clamped maxBackups (MaxBackups e) /\
   clamped maxAgeDays (MaxAgeDays e)) /\
  (forall w, exists p w',
     New [WithAccessFile path maxSizeMB maxBackups maxAgeDays compress;
          WithErrorFile path maxSizeMB maxBackups maxAgeDays compress] w
     = Ok ((p, None), w')).
Proof.
  cbv zeta. split; [|split].
  - cbn. repeat split; apply clamp_clamped.
  - cbn. repeat split; apply clamp_clamped.
  - intros w. do 2 eexists. exact (New_computes _ w).
Qed.

Lemma rotation_inputs_clamped_witness :
  MaxSizeMB (access (WithAccessFile "access.log" (-5) 3 (-1) true initialCfg)) = 0 /\
  MaxBackups (access (WithAccessFile "access.log" (-5) 3 (-1) true initialCfg)) = 3 /\
  MaxAgeDays (error (WithErrorFile "access.log" (-5) 3 (-1) true initialCfg)) = 0.
Proof.
  destruct (rotation_inputs_clamped "access.log" (-5) 3 (-1) true initialCfg)
    as [[_ [_ [[_ Hsize] [[Hbackups _] _]]]] [[_ [_ [_ [_ [_ Hage]]]]] _]].
  split; [apply Hsize; lia | split; [apply Hbackups; lia | apply Hage; lia]].
Defined.

(** ** Composition of options *)

Lemma touches_false_field (o : OptionCall) (f : Field) (c : buildCfg) :
  touches o f = false -> field f (call o c) = field f c.
Proof. destruct o, f; cbn; intros H; try reflexivity; discriminate H. Qed.

(** What a constructor writes into a field other than [zapOpts] does not
    depend on the configuration it is applied to. *)
Lemma touches_true_field (o : OptionCall) (f : Field) (c1 c2 : buildCfg) :
  touches o f = true -> f <> f_zapOpts ->
  field f (call o c1) = field f (call o c2).
Proof.
  destruct o, f; cbn; intros H Hf; try reflexivity; try discriminate H.
  exfalso; apply Hf; reflexivity.
Qed.

Lemma lastTouching_touches (f : Field) (opts : list OptionCall) (o : OptionCall) :
  lastTouching f opts = Some o -> touches o f = true.
Proof.
  induction opts as [|o0 rest IH]; cbn; [discriminate|].
  destruct (lastTouching f rest) as [o'|].
  - intros H; injection H as <-. apply IH; reflexivity.
  - destruct (touches o0 f) eqn:Ht; [|discriminate].
    intros H; injection H as <-. exact Ht.
Qed.

Lemma lastTouching_None_field (f : Field) (opts : list OptionCall) (c : buildCfg) :
  lastTouching f opts = None ->
  field f (applyOptions (map call opts) c) = field f c.
Proof.
  revert c. induction opts as [|o0 rest IH]; intros c; cbn [map lastTouching];
    [reflexivity|].
  rewrite applyOptions_cons.
  destruct (lastTouching f rest) as [o'|]; [discriminate|].
  destruct (touches o0 f) eqn:Ht; [discriminate|]. intros _.
  rewrite IH by reflexivity. apply touches_false_field; exact Ht.
Qed.

Lemma zapOpts_call (o : OptionCall) (c : buildCfg) :
  zapOpts (call o c) = zapOpts c ++ zapArgs [o].
Proof. destruct o; cbn; rewrite ?app_nil_r; reflexivity. Qed.

(** The zap options accumulate: every [WithZapOptions] call appends. *)
Lemma zapOpts_applyOptions (opts : list OptionCall) (c : buildCfg) :
  zapOpts (applyOptions (map call opts) c) = zapOpts c ++ zapArgs opts.
Proof.
  revert c. induction opts as [|o rest IH]; intros c; cbn [map].
  - cbn. rewrite app_nil_r; reflexivity.
  - rewrite applyOptions_cons, IH, zapOpts_call, <- app_assoc.
    f_equal. destruct o; cbn; rewrite ?app_nil_r; reflexivity.
Qed.

(** C3, as stated, fails on the extra zap options: two [WithZapOptions]
    calls leave both arguments in the configuration, not only the later. *)
Lemma last_write_wins_fails_on_zapOpts :
  lastTouching f_zapOpts twoZapOptionCalls
    = Some (CallWithZapOptions [zap.Development]) /\
  field f_zapOpts (applyOptions (map call twoZapOptionCalls) initialCfg)
    = [zap.AddCallerSkip 1; zap.Development] /\
  field f_zapOpts (call (CallWithZapOptions [zap.Development]) initialCfg)
    = [zap.Development] /\
  field f_zapOpts (applyOptions (map call twoZapOptionCalls) initialCfg)
    <> field f_zapOpts (call (CallWithZapOptions [zap.Development]) initialCfg).
Proof. cbn. repeat split; discriminate. Qed.

(** C3, amended. On every field but the extra zap options the last option
    of the list that touches the field wins: the folded configuration holds
    there what that option alone writes.  The extra zap options accumulate
    instead: the folded list is the initial one followed by the arguments of
    all [WithZapOptions] calls in call order. *)
Theorem last_write_wins_except_zapOpts (opts : list OptionCall) (c : buildCfg) :
  (forall (f : Field) (o : OptionCall),
     f <> f_zapOpts ->
     lastTouching f opts = Some o ->
     field f (applyOptions (map call opts) c) = field f (call o c)) /\
  zapOpts (applyOptions (map call opts) c) = zapOpts c ++ zapArgs opts.
Proof.
  split; [|apply zapOpts_applyOptions].
  intros f o Hf. revert c.
  induction opts as [|o0 rest IH]; intros c; cbn [map lastTouching];
    [discriminate|].
  rewrite applyOptions_cons.
  destruct (lastTouching f rest) as [o'|] eqn:Hrest.
  - intros H; injection H as <-.
    rewrite (IH (call o0 c) eq_refl).
    apply touches_true_field; [|exact Hf].
    apply (lastTouching_touches f rest); exact Hrest.
  - destruct (touches o0 f) eqn:Ht; [|discriminate].
    intros H; injection H as <-.
    apply lastTouching_None_field; exact Hrest.
Qed.

Lemma last_write_wins_except_zapOpts_witness :
  field f_access
    (applyOptions
       (map call [CallWithAccessFile "a.log" 10 2 7 false;
                  CallWithConsoleForAccess true;
                  CallWithAccessFile "b.log" (-1) 0 0 true]) initialCfg)
  = {| Path := "b.log"; MaxSizeMB := 0; MaxBackups := 0; MaxAgeDays := 0;
       Compress := true |}.
Proof.
  refine (proj1 (last_write_wins_except_zapOpts
                   [CallWithAccessFile "a.log" 10 2 7 false;
                    CallWithConsoleForAccess true;
                    CallWithAccessFile "b.log" (-1) 0 0 true] initialCfg)
                f_access (CallWithAccessFile "b.log" (-1) 0 0 true) _ eq_refl).
  discriminate.
Defined.

(** ** New *)




(** ** New as it runs *)

Lemma callOptions_map_Some (opts : list Option) (c : buildCfg) (w : World) :
  callOptions (map Some opts) c w = Ok (applyOptions opts c, w).
Proof.
  revert c. induction opts as [|o rest IH]; intros c; [reflexivity|].
  cbn [map callOptions]. rewrite IH. reflexivity.
Qed.

Lemma callOptions_nil_panics (l1 : list Option) (l2 : list (option Option))
    (c : buildCfg) (w : World) :
  callOptions (map Some l1 ++ None :: l2) c w = Panic.
Proof.
  revert c. induction l1 as [|o rest IH]; intros c; [reflexivity|].
  cbn [map app callOptions]. apply IH.
Qed.

Lemma WithOptions_core_inert (l : list zap.Option) (c : zapcore.Core) (w : World) :
  forallb zap.inert l = true -> zap.WithOptions_core l c w = Ok (c, w).
Proof.
  induction l as [|opt rest IH]; [reflexivity|].
  cbn [forallb]. intros H. apply andb_prop in H. destruct H as [Ho Hr].
  cbn [zap.WithOptions_core]. unfold bind.
  destruct opt; try discriminate Ho; cbn; exact (IH Hr).
Qed.

Lemma WithOptions_core_nil_panics (l : list zap.Option) (c : zapcore.Core)
    (w : World) :
  In zap.NilOption l -> zap.WithOptions_core l c w = Panic.
Proof.
  revert c w. induction l as [|opt rest IH]; intros c w; [intros []|].
  intros [-> | Hin]; [reflexivity|].
  cbn [zap.WithOptions_core]. unfold bind.
  destruct (zap.apply_core opt c w) as [[c' w']|]; [|reflexivity].
  apply IH; exact Hin.
Qed.

Lemma NewLogger_inert (c : zapcore.Core) (l : list zap.Option) (w : World) :
  forallb zap.inert l = true -> zap.NewLogger c l w = Ok (zap.New c l, w).
Proof.
  intros H. unfold zap.NewLogger, bind. rewrite (WithOptions_core_inert l c w H).
  reflexivity.
Qed.

(** On function values whose zap options only set fields of the logger, the
    call is what [New] describes. *)
Lemma New_run_inert (opts : list Option) (w : World) :
  forallb zap.inert (zapOpts (applyOptions opts initialCfg)) = true ->
  New_run (map Some opts) w = New opts w.
Proof.
  intros H. unfold New_run, New. unfold bind at 1.
  rewrite callOptions_map_Some.
  generalize dependent (applyOptions opts initialCfg). intros cfg H.
  unfold bind, zap.NewAtomicLevelAt.
  rewrite NewLogger_inert by exact H.
  rewrite NewLogger_inert by exact H.
  reflexivity.
Qed.

Lemma New_run_inert_result (opts : list Option) (w w' : World) (p : Pair)
    (e : option builtin.error) :
  forallb zap.inert (zapOpts (applyOptions opts initialCfg)) = true ->
  New_run (map Some opts) w = Ok ((p, e), w') ->
  p = builtPair (applyOptions opts initialCfg) (List.length (levels w)) /\
  e = None /\
  w' = afterNew (applyOptions opts initialCfg) w.
Proof.
  intros Hi. rewrite (New_run_inert opts w Hi), New_computes. cbv zeta.
  intros H. injection H as <- <- <-. repeat split.
Qed.

Example New_run_with_consoles :
  New_run (map Some [WithConsoleForAccess true; WithConsoleForError true]) emptyWorld
  = Ok ((consolePair, None), {| levels := [0; 2]; trace := [] |}).
Proof. reflexivity. Qed.

(** A core-replacing zap option changes what the loggers of the pair are:
    with [WrapCore stderrOnlyCore] and no console enabled, a flush of the
    pair reaches stderr twice. *)
Example New_run_with_WrapCore :
  match New_run [Some (WithZapOptions [zap.WrapCore stderrOnlyCore])] emptyWorld with
  | Ok ((p, _), w') => traceOf (Pair_Sync env_stdout_fails p w')
  | Panic => None
  end
  = Some [EvSync os.Stderr; EvSync os.Stderr].
Proof. reflexivity. Qed.

(** With the same option the gate of the access logger is no longer the
    cell the pair exposes, and its core encodes as before. *)
Example New_run_WrapCore_detaches_gate :
  match New_run [Some (WithZapOptions [zap.WrapCore stderrOnlyCore])] emptyWorld with
  | Ok ((p, _), _) =>
      option_map (fun l => zapcore.enab (zap.core l)) (Access p)
  | Panic => None
  end
  = Some (zapcore.constLevel zapcore.ErrorLevel).
Proof. reflexivity. Qed.

(** Whatever the zap options do when the loggers are made, a pair the call
    returns holds loggers made with the accumulated zap options: the access
    logger with exactly them, the error logger with them after its two
    mandatory options. *)
Lemma New_run_options (opts : list (option Option)) (w w0 w' : World)
    (cfg : buildCfg) (p : Pair) (e : option builtin.error) :
  callOptions opts initialCfg w = Ok (cfg, w0) ->
  New_run opts w = Ok ((p, e), w') ->
  exists accessL errorL,
    Access p = Some accessL /\ Error p = Some errorL /\
    zap.options accessL = zapOpts cfg /\
    zap.options errorL =
      zap.AddCaller :: zap.AddStacktrace zapcore.ErrorLevel :: zapOpts cfg.
Proof.
  intros Hc. unfold New_run, bind, ret, zap.NewLogger, bind, ret. rewrite Hc.
  cbn.
  destruct (zap.WithOptions_core (zapOpts cfg) _ _) as [[c1 w1]|]; [|discriminate].
  destruct (zap.WithOptions_core (zapOpts cfg) _ _) as [[c2 w2]|]; [|discriminate].
  intros H. injection H as <- _ _. do 2 eexists. repeat split.
Qed.

(** C7, as stated, fails on a nil option, and on a nil zap option: the call
    dereferences it and panics instead of returning. *)
Lemma New_panics_on_nil_option :
  New_run [None] emptyWorld = Panic /\
  New_run [Some (WithAccessFile "a.log" 10 2 7 true); None] emptyWorld = Panic /\
  New_run [Some (WithZapOptions [zap.NilOption])] emptyWorld = Panic.
Proof. repeat split. Qed.

(** C7, amended. [New] never returns an error: whenever the call returns,
    its error result is nil.  It returns for every list of function values
    (with any rotation parameters, paths and levels) whose accumulated zap
    options only set fields of the logger.  It does not return on every
    list: a nil option anywhere in the list, or a nil zap option among the
    accumulated ones, makes it panic. *)
Theorem New_returns_no_failure_or_panics :
  (forall opts w p e w', New_run opts w = Ok ((p, e), w') -> e = None) /\
  (forall (opts : list Option) w,
     forallb zap.inert (zapOpts (applyOptions opts initialCfg)) = true ->
     exists p w', New_run (map Some opts) w = Ok ((p, None), w')) /\
  (forall (l1 : list Option) (l2 : list (option Option)) w,
     New_run (map Some l1 ++ None :: l2) w = Panic) /\
  (forall (opts : list Option) w,
     In zap.NilOption (zapOpts (applyOptions opts initialCfg)) ->
     New_run (map Some opts) w = Panic).
Proof.
  split; [|split; [|split]].
  - intros opts w p e w'. unfold New_run, bind, ret, zap.NewLogger, bind, ret.
    destruct (callOptions opts initialCfg w) as [[cfg w0]|]; [|discriminate].
    cbn.
    destruct (zap.WithOptions_core (zapOpts cfg) _ _) as [[c1 w1]|]; [|discriminate].
    destruct (zap.WithOptions_core (zapOpts cfg) _ _) as [[c2 w2]|]; [|discriminate].
    intros H. injection H as _ <- _. reflexivity.
  - intros opts w H. rewrite (New_run_inert opts w H).
    do 2 eexists. exact (New_computes opts w).
  - intros l1 l2 w. unfold New_run. unfold bind at 1.
    rewrite callOptions_nil_panics. reflexivity.
  - intros opts w H. unfold New_run. unfold bind at 1.
    rewrite callOptions_map_Some.
    unfold bind, zap.NewAtomicLevelAt, zap.NewLogger, bind.
    rewrite WithOptions_core_nil_panics by exact H. reflexivity.
Qed.

Lemma New_returns_no_failure_or_panics_witness :
  (exists p w',
     New_run (map Some [WithAccessFile EmptyString (-5) (-1) (-3) false;
                        WithInitialLevels 7 (-9);
                        WithZapOptions [zap.AddCallerSkip 1]]) emptyWorld
     = Ok ((p, None), w')) /\
  New_run (map Some [WithZapOptions [zap.Development; zap.NilOption]]) emptyWorld
  = Panic.
Proof.
  destruct New_returns_no_failure_or_panics as [_ [Hret [_ Hnil]]].
  split.
  - apply Hret. reflexivity.
  - apply Hnil. cbn. right; left; reflexivity.
Defined.

(** ** Destinations *)

Lemma Sync_multi (env : Env) (l : list zapcore.WriteSyncer) :
  zapcore.Sync env (zapcore.multiWriteSyncer l) = Sync_each env l None.
Proof. reflexivity. Qed.

Lemma Write_multi (env : Env) (l : list zapcore.WriteSyncer) (p : builtin.bytes) :
  zapcore.Write env (zapcore.multiWriteSyncer l) p = Write_each env p l 0 None.
Proof. reflexivity. Qed.

(** A flush of a write syncer always returns. *)
Lemma Sync_returns (env : Env) (ws : zapcore.WriteSyncer) :
  forall w, exists e w', zapcore.Sync env ws w = Ok (e, w').
Proof.
  induction ws as [dst | f | l IH] using WriteSyncer_nested_ind; intros w.
  - do 2 eexists; reflexivity.
  - do 2 eexists; reflexivity.
  - rewrite Sync_multi. generalize (@None builtin.error) as acc. revert w.
    induction IH as [|x r Hx _ IHr]; intros w acc.
    + do 2 eexists; reflexivity.
    + destruct (Hx w) as [e [w1 He]].
      destruct (IHr w1 (multierr.Append acc e)) as [e' [w2 He']].
      exists e', w2. cbn [Sync_each]. unfold bind. rewrite He. exact He'.
Qed.

(** A write to a write syncer always returns. *)
Lemma Write_returns (env : Env) (ws : zapcore.WriteSyncer) (p : builtin.bytes) :
  forall w, exists r w', zapcore.Write env ws p w = Ok (r, w').
Proof.
  induction ws as [dst | f | l IH] using WriteSyncer_nested_ind; intros w.
  - destruct dst; do 2 eexists; reflexivity.
  - do 2 eexists; reflexivity.
  - rewrite Write_multi.
    generalize (@None builtin.error) as acc. generalize 0 as n. revert w.
    induction IH as [|x r Hx _ IHr]; intros w n acc.
    + do 2 eexists; reflexivity.
    + destruct (Hx w) as [[n1 e] [w1 He]].
      destruct (IHr w1 (zapcore.nWritten_next n n1) (multierr.Append acc e))
        as [r' [w2 He']].
      exists r', w2. cbn [Write_each]. unfold bind. rewrite He. exact He'.
Qed.

(** C5. With an empty path [newRotateWriter] returns the discarding
    destination: each write reports the whole payload written and no
    failure, a flush reports no failure, and neither these nor any sequence
    of writes changes the world (nothing reaches a file).  With any other
    path it returns the wrapped rotation collaborator, configured with
    exactly the five values of the rotation configuration. *)
Theorem newRotateWriter_discards_or_rotates (env : Env) (c : rotateCfg) :
  (Path c = EmptyString ->
     newRotateWriter c = zapcore.AddSync io.Discard /\
     (forall p w,
        zapcore.Write env (newRotateWriter c) p w = Ok ((builtin.len p, None), w)) /\
     (forall w, zapcore.Sync env (newRotateWriter c) w = Ok (None, w)) /\
     (forall ps w,
        WriteAll env (newRotateWriter c) ps w
        = Ok (map (fun p => (builtin.len p, None)) ps, w))) /\
  (Path c <> EmptyString ->
     newRotateWriter c =
       zapcore.AddSync (io.Lumberjack
         {| lumberjack.Filename := Path c;
            lumberjack.MaxSize := MaxSizeMB c;
            lumberjack.MaxBackups := MaxBackups c;
            lumberjack.MaxAge := MaxAgeDays c;
            lumberjack.Compress := Compress c |})).
Proof.
  split; intros Hpath.
  - assert (Hd : newRotateWriter c = zapcore.AddSync io.Discard).
    { unfold newRotateWriter. rewrite Hpath. reflexivity. }
    rewrite Hd. repeat split.
    intros ps. induction ps as [|p rest IH]; intros w; [reflexivity|].
    cbn [WriteAll map]. unfold bind. cbn. 
    specialize (IH w). unfold bind in IH. cbn in IH. rewrite IH. reflexivity.
  - unfold newRotateWriter.
    destruct (String.eqb_spec (Path c) EmptyString) as [E|E];
      [contradiction|reflexivity].
Qed.

Lemma newRotateWriter_discards_or_rotates_witness :
  WriteAll env_both_fail
    (newRotateWriter (access initialCfg))
    [[Byte.x7b; Byte.x7d]; [Byte.x0a]] emptyWorld
  = Ok ([(2, None); (1, None)], emptyWorld) /\
  newRotateWriter (access (WithAccessFile "a.log" 10 2 7 true initialCfg))
  = zapcore.writerWrapper (io.Lumberjack
      {| lumberjack.Filename := "a.log";
         lumberjack.MaxSize := 10;
         lumberjack.MaxBackups := 2;
         lumberjack.MaxAge := 7;
         lumberjack.Compress := true |}).
Proof.
  split.
  - destruct (newRotateWriter_discards_or_rotates env_both_fail (access initialCfg))
      as [Hempty _].
    destruct (Hempty eq_refl) as [_ [_ [_ Hall]]].
    exact (Hall [[Byte.x7b; Byte.x7d]; [Byte.x0a]] emptyWorld).
  - destruct (newRotateWriter_discards_or_rotates env_both_fail
                (access (WithAccessFile "a.log" 10 2 7 true initialCfg)))
      as [_ Hpath].
    apply Hpath. discriminate.
Defined.

(** C6. [tee] of two absent destinations is absent; with exactly one
    present it is that destination itself; with both present it is a
    fan-out of the two, whose flush flushes the first and then the second
    whatever the first answered, and whose write writes to the first and
    then to the second; failures of the branches are aggregated.  Flushes
    and writes of a destination always return. *)
Theorem tee_fans_out (env : Env) :
  tee None None = None /\
  (forall a, tee (Some a) None = Some a) /\
  (forall b, tee None (Some b) = Some b) /\
  (forall a b, exists ab,
     tee (Some a) (Some b) = Some ab /\
     (forall w, exists ea w1 eb w2,
        zapcore.Sync env a w = Ok (ea, w1) /\
        zapcore.Sync env b w1 = Ok (eb, w2) /\
        zapcore.Sync env ab w = Ok (multierr.Append ea eb, w2)) /\
     (forall p w, exists na ea w1 nb eb w2,
        zapcore.Write env a p w = Ok ((na, ea), w1) /\
        zapcore.Write env b p w1 = Ok ((nb, eb), w2) /\
        zapcore.Write env ab p w
        = Ok ((zapcore.nWritten_next (zapcore.nWritten_next 0 na) nb,
               multierr.Append ea eb), w2))).
Proof.
  repeat split.
  intros a b. exists (zapcore.multiWriteSyncer [a; b]). repeat split.
  - intros w.
    destruct (Sync_returns env a w) as [ea [w1 Ha]].
    destruct (Sync_returns env b w1) as [eb [w2 Hb]].
    exists ea, w1, eb, w2. repeat split; try assumption.
    rewrite Sync_multi. cbn [Sync_each]. unfold bind, ret. rewrite Ha, Hb.
    reflexivity.
  - intros p w.
    destruct (Write_returns env a p w) as [[na ea] [w1 Ha]].
    destruct (Write_returns env b p w1) as [[nb eb] [w2 Hb]].
    exists na, ea, w1, nb, eb, w2. repeat split; try assumption.
    rewrite Write_multi. cbn [Write_each]. unfold bind, ret. rewrite Ha, Hb.
    reflexivity.
Qed.

(** The access destination with file and console on, in a world where the
    flush of stdout fails: the file branch is flushed first (a no-op of the
    wrapper), the console branch after it, and the failure is reported. *)
Example tee_file_and_console_flush :
  let ws := tee (Some (newRotateWriter
                         (access (WithAccessFile "a.log" 10 2 7 true initialCfg))))
                (Some (zapcore.AddSync (io.OsFile os.Stdout))) in
  option_map (fun ws => zapcore.Sync env_stdout_fails ws emptyWorld) ws
  = Some (Ok (Some (builtin.errorString "sync /dev/stdout: invalid argument"),
              {| levels := []; trace := [EvSync os.Stdout] |})).
Proof. reflexivity. Qed.

(** Two failing console branches: the second is flushed although the first
    failed, and both failures are in the aggregate. *)
Example tee_both_branches_fail :
  zapcore.Sync env_both_fail
    (zapcore.multiWriteSyncer
       [zapcore.fileSyncer os.Stdout; zapcore.fileSyncer os.Stderr]) emptyWorld
  = Ok (Some (builtin.multiError ["sync /dev/stdout: invalid argument";
                                  "sync /dev/stderr: invalid argument"]),
        {| levels := []; trace := [EvSync os.Stdout; EvSync os.Stderr] |}).
Proof. reflexivity. Qed.

(** ** Pairs built by New: flushes and writes *)

Lemma emit_levels (ev : Event) (w : World) : levels (emit ev w) = levels w.
Proof. reflexivity. Qed.

Lemma emit_trace (ev : Event) (w : World) : trace (emit ev w) = trace w ++ [ev].
Proof. reflexivity. Qed.

(** The flush of a logger made by [New]: the file side is a wrapper whose
    flush does nothing, the console side, when enabled, is flushed. *)
Lemma built_logger_Sync (env : Env) (encCfg : zapcore.EncoderConfig) (c : rotateCfg)
    (b : bool) (f : os.File) (lvl : zap.AtomicLevel) (zopts : list zap.Option)
    (w : World) :
  zap.Logger_Sync env
    (Some (zap.New
       (makeCore encCfg
          (tee (Some (newRotateWriter c))
               (if b then Some (zapcore.fileSyncer f) else None)) lvl) zopts)) w
  = Ok (if b then sync_outcome env f (trace w) else None,
        if b then emit (EvSync f) w else w).
Proof.
  unfold newRotateWriter.
  destruct (String.eqb (Path c) EmptyString), b; cbn; unfold bind, ret; cbn;
    try reflexivity.
Qed.

(** One write to a destination made by [New]. *)
Lemma built_destination_Write (env : Env) (c : rotateCfg) (b : bool) (f : os.File)
    (payload : builtin.bytes) (w : World) :
  exists ws,
    tee (Some (newRotateWriter c))
        (if b then Some (zapcore.fileSyncer f) else None) = Some ws /\
    exists r w2,
      zapcore.Write env ws payload w = Ok (r, w2) /\
      levels w2 = levels w /\
      trace w2 = trace w ++ fileWrites c payload ++ consoleWrites b f payload.
Proof.
  unfold newRotateWriter, fileWrites, consoleWrites, rotator.
  destruct (String.eqb (Path c) EmptyString), b; cbn;
    (eexists; split; [reflexivity|]); cbn; unfold bind, ret; cbn;
    repeat match goal with
           | |- context [write_outcome ?e ?d ?p ?t] =>
               destruct (write_outcome e d p t)
           end;
    do 2 eexists; (split; [reflexivity|]); (split; [reflexivity|]); cbn;
    rewrite ?app_nil_r, <- ?app_assoc; reflexivity.
Qed.

(** [Sync] on the pair [New] describes. *)
Lemma builtPair_Sync (env : Env) (cfg : buildCfg) (n : nat) (w1 : World) :
  exists r w2,
    Pair_Sync env (builtPair cfg n) w1 = Ok (r, w2) /\
    levels w2 = levels w1 /\
    trace w2 = trace w1
      ++ consoleSyncs (consoleStdout cfg) os.Stdout
      ++ consoleSyncs (consoleStderr cfg) os.Stderr /\
    (consoleStdout cfg = false -> consoleStderr cfg = false ->
     r = None /\ w2 = w1).
Proof.
  pose proof (Pair_Sync_outcome env (builtPair cfg n) w1) as Hout.
  unfold builtPair in *. cbn [Access Error flushIfPresent] in Hout.
  specialize (Hout _ _ _ _ (built_logger_Sync _ _ _ _ _ _ _ _)
                   (built_logger_Sync _ _ _ _ _ _ _ _)).
  do 2 eexists. split; [exact Hout|].
  unfold consoleSyncs.
  destruct (consoleStdout cfg), (consoleStderr cfg); cbn;
    rewrite ?app_nil_r, <- ?app_assoc; repeat split; intros; try discriminate;
    reflexivity.
Qed.

(** X1. When the zap options accumulated by the option list only set fields
    of the logger (none replaces its core), [Sync] on the pair [New]
    returns always returns, in every environment.  It flushes the enabled
    consoles only, stdout before stderr, never a file destination, and
    leaves the level gates alone; with both consoles off it returns nil and
    changes nothing. *)
Theorem built_pair_Sync_flushes_consoles_only
    (env : Env) (opts : list Option) (w w' w1 : World) (p : Pair)
    (e : option builtin.error) :
  forallb zap.inert (zapOpts (applyOptions opts initialCfg)) = true ->
  New_run (map Some opts) w = Ok ((p, e), w') ->
  exists r w2,
    Pair_Sync env p w1 = Ok (r, w2) /\
    levels w2 = levels w1 /\
    trace w2 = trace w1
      ++ consoleSyncs (consoleStdout (applyOptions opts initialCfg)) os.Stdout
      ++ consoleSyncs (consoleStderr (applyOptions opts initialCfg)) os.Stderr /\
    (consoleStdout (applyOptions opts initialCfg) = false ->
     consoleStderr (applyOptions opts initialCfg) = false ->
     r = None /\ w2 = w1).
Proof.
  intros Hi H.
  destruct (New_run_inert_result opts w w' p e Hi H) as [-> _].
  apply builtPair_Sync.
Qed.

Lemma built_pair_Sync_flushes_consoles_only_witness :
  exists r w2,
    Pair_Sync env_both_fail consolePair emptyWorld = Ok (r, w2) /\
    levels w2 = [] /\
    trace w2 = [EvSync os.Stdout; EvSync os.Stderr].
Proof.
  destruct (built_pair_Sync_flushes_consoles_only env_both_fail
              [WithConsoleForAccess true; WithConsoleForError true]
              emptyWorld _ emptyWorld _ _ eq_refl New_run_with_consoles)
    as [r [w2 [Hs [Hl [Ht _]]]]].
  exists r, w2. split; [exact Hs|]. split; [exact Hl|exact Ht].
Defined.

(** The destinations of the pair [New] describes. *)
Lemma builtPair_writes (env : Env) (cfg : buildCfg) (n : nat) (w1 : World)
    (payload : builtin.bytes) :
  exists accessL errorL wsA wsE,
    Access (builtPair cfg n) = Some accessL /\
    Error (builtPair cfg n) = Some errorL /\
    zapcore.out (zap.core accessL) = Some wsA /\
    zapcore.out (zap.core errorL) = Some wsE /\
    (exists r w2,
       zapcore.Write env wsA payload w1 = Ok (r, w2) /\
       levels w2 = levels w1 /\
       trace w2 = trace w1
         ++ fileWrites (access cfg) payload
         ++ consoleWrites (consoleStdout cfg) os.Stdout payload) /\
    (exists r w2,
       zapcore.Write env wsE payload w1 = Ok (r, w2) /\
       levels w2 = levels w1 /\
       trace w2 = trace w1
         ++ fileWrites (error cfg) payload
         ++ consoleWrites (consoleStderr cfg) os.Stderr payload).
Proof.
  destruct (built_destination_Write env (access cfg) (consoleStdout cfg)
              os.Stdout payload w1) as [wsA [HtA [rA [wA HA]]]].
  destruct (built_destination_Write env (error cfg) (consoleStderr cfg)
              os.Stderr payload w1) as [wsE [HtE [rE [wE HE]]]].
  unfold builtPair. cbn [Access Error].
  do 2 eexists. exists wsA, wsE.
  split; [reflexivity|]. split; [reflexivity|].
  split; [exact HtA|]. split; [exact HtE|].
  split; [exists rA, wA; exact HA | exists rE, wE; exact HE].
Qed.

(** X2. When the zap options accumulated by the option list only set fields
    of the logger, the cores of the two loggers [New] returns have a
    destination (never nil), and a write to it returns: the access
    destination passes the payload to the rotated file when a path is
    configured and then to stdout when the access console is on, and to
    nothing else; the error destination likewise with the error file and
    stderr. *)
Theorem built_destinations_route_writes
    (env : Env) (opts : list Option) (w w' w1 : World) (p : Pair)
    (e : option builtin.error) (payload : builtin.bytes) :
  forallb zap.inert (zapOpts (applyOptions opts initialCfg)) = true ->
  New_run (map Some opts) w = Ok ((p, e), w') ->
  exists accessL errorL wsA wsE,
    Access p = Some accessL /\ Error p = Some errorL /\
    zapcore.out (zap.core accessL) = Some wsA /\
    zapcore.out (zap.core errorL) = Some wsE /\
    (exists r w2,
       zapcore.Write env wsA payload w1 = Ok (r, w2) /\
       levels w2 = levels w1 /\
       trace w2 = trace w1
         ++ fileWrites (access (applyOptions opts initialCfg)) payload
         ++ consoleWrites (consoleStdout (applyOptions opts initialCfg))
              os.Stdout payload) /\
    (exists r w2,
       zapcore.Write env wsE payload w1 = Ok (r, w2) /\
       levels w2 = levels w1 /\
       trace w2 = trace w1
         ++ fileWrites (error (applyOptions opts initialCfg)) payload
         ++ consoleWrites (consoleStderr (applyOptions opts initialCfg))
              os.Stderr payload).
Proof.
  intros Hi H.
  destruct (New_run_inert_result opts w w' p e Hi H) as [-> _].
  apply builtPair_writes.
Qed.

Lemma built_destinations_route_writes_witness :
  exists wsA r w2,
    zapcore.out (zapcore.NewCore
                   (zapcore.NewJSONEncoder defaultEncoder) (Some wsA)
                   (zapcore.atomicLevel 0)) = Some wsA /\
    zapcore.Write env_both_fail wsA [Byte.x7b; Byte.x7d] emptyWorld = Ok (r, w2) /\
    trace w2 = [EvWrite (io.OsFile os.Stdout) [Byte.x7b; Byte.x7d]].
Proof.
  destruct (built_destinations_route_writes env_both_fail
              [WithConsoleForAccess true; WithConsoleForError true]
              emptyWorld _ emptyWorld _ _ [Byte.x7b; Byte.x7d]
              eq_refl New_run_with_consoles)
    as [accessL [errorL [wsA [wsE [_ [_ [_ [_ [[r [w2 [Hw [_ Ht]]]] _]]]]]]]]].
  exists wsA, r, w2. split; [reflexivity|]. split; [exact Hw|exact Ht].
Defined.

(** ** Level gates *)

Lemma set_cell_snoc2 (l : list Level) (x y v : Level) :
  zap.set_cell ((l ++ [x]) ++ [y]) (List.length l) v = (l ++ [v]) ++ [y].
Proof. induction l as [|a l IH]; cbn; [reflexivity|]. rewrite IH; reflexivity. Qed.

Lemma set_cell_snoc2' (l : list Level) (x y v : Level) :
  zap.set_cell ((l ++ [x]) ++ [y]) (S (List.length l)) v = (l ++ [x]) ++ [v].
Proof. induction l as [|a l IH]; cbn; [reflexivity|]. rewrite IH; reflexivity. Qed.

Lemma nth_error_app_keep {A : Type} (l r : list A) (n : nat) (x : A) :
  nth_error l n = Some x -> nth_error (l ++ r) n = Some x.
Proof.
  revert n. induction l as [|a l IH]; intros [|n]; cbn; try discriminate; auto.
Qed.

Lemma nth_error_length_None {A : Type} (l : list A) (k : nat) :
  nth_error l (k + List.length l) = None.
Proof. apply nth_error_None. lia. Qed.

(** The gates of the pair [New] describes, in the world it leaves. *)
Lemma builtPair_gates (cfg : buildCfg) (w : World) (l : Level) :
  let p := builtPair cfg (List.length (levels w)) in
  let w' := afterNew cfg w in
  exists accessL errorL wa we,
    Access p = Some accessL /\ Error p = Some errorL /\
    zapcore.enab (zap.core accessL) = zap.enabler (AccessLevel p) /\
    zapcore.enab (zap.core errorL) = zap.enabler (ErrorLevel p) /\
    zap.cell (AccessLevel p) <> zap.cell (ErrorLevel p) /\
    zap.AtomicLevel_SetLevel (AccessLevel p) l w' = Ok (tt, wa) /\
    (forall lvl,
       zapcore.Enabled (zapcore.enab (zap.core accessL)) lvl wa
         = Ok (l <=? lvl, wa) /\
       zapcore.Enabled (zapcore.enab (zap.core errorL)) lvl wa
         = Ok (initialErrorLevel cfg <=? lvl, wa)) /\
    zap.AtomicLevel_SetLevel (ErrorLevel p) l w' = Ok (tt, we) /\
    (forall lvl,
       zapcore.Enabled (zapcore.enab (zap.core accessL)) lvl we
         = Ok (initialAccessLevel cfg <=? lvl, we) /\
       zapcore.Enabled (zapcore.enab (zap.core errorL)) lvl we
         = Ok (l <=? lvl, we)).
Proof.
  cbv zeta.
  unfold builtPair, afterNew, zap.AtomicLevel_SetLevel.
  cbn [Access Error AccessLevel ErrorLevel zap.cell levels trace].
  rewrite nth_error_snoc2, nth_error_snoc2', set_cell_snoc2, set_cell_snoc2'.
  do 4 eexists.
  split; [reflexivity|]. split; [reflexivity|].
  split; [reflexivity|]. split; [reflexivity|].
  split; [apply Nat.neq_succ_diag_r|].
  split; [reflexivity|]. split.
  - intros lvl. unfold makeCore, zap.enabler, zapcore.Enabled.
    cbn [zapcore.enab zap.core zap.cell levels].
    rewrite nth_error_snoc2, nth_error_snoc2'. split; reflexivity.
  - split; [reflexivity|].
    intros lvl. unfold makeCore, zap.enabler, zapcore.Enabled.
    cbn [zapcore.enab zap.core zap.cell levels].
    rewrite nth_error_snoc2, nth_error_snoc2'. split; reflexivity.
Qed.

(** X3. When the zap options accumulated by the option list only set fields
    of the logger, the level gate of the core of each logger [New] returns
    is the very cell the pair exposes: after [AccessLevel.SetLevel(l)] the
    access core lets a level through exactly when it is at least [l], and
    the error core still applies its initial threshold; after
    [ErrorLevel.SetLevel(l)] the roles are exchanged.  The two gates are
    distinct cells. *)
Theorem level_gates_shared_and_independent
    (opts : list Option) (w w' : World) (p : Pair) (e : option builtin.error)
    (l : Level) :
  forallb zap.inert (zapOpts (applyOptions opts initialCfg)) = true ->
  New_run (map Some opts) w = Ok ((p, e), w') ->
  exists accessL errorL wa we,
    Access p = Some accessL /\ Error p = Some errorL /\
    zapcore.enab (zap.core accessL) = zap.enabler (AccessLevel p) /\
    zapcore.enab (zap.core errorL) = zap.enabler (ErrorLevel p) /\
    zap.cell (AccessLevel p) <> zap.cell (ErrorLevel p) /\
    zap.AtomicLevel_SetLevel (AccessLevel p) l w' = Ok (tt, wa) /\
    (forall lvl,
       zapcore.Enabled (zapcore.enab (zap.core accessL)) lvl wa
         = Ok (l <=? lvl, wa) /\
       zapcore.Enabled (zapcore.enab (zap.core errorL)) lvl wa
         = Ok (initialErrorLevel (applyOptions opts initialCfg) <=? lvl, wa)) /\
    zap.AtomicLevel_SetLevel (ErrorLevel p) l w' = Ok (tt, we) /\
    (forall lvl,
       zapcore.Enabled (zapcore.enab (zap.core accessL)) lvl we
         = Ok (initialAccessLevel (applyOptions opts initialCfg) <=? lvl, we) /\
       zapcore.Enabled (zapcore.enab (zap.core errorL)) lvl we
         = Ok (l <=? lvl, we)).
Proof.
  intros Hi H.
  destruct (New_run_inert_result opts w w' p e Hi H) as [-> [_ ->]].
  apply builtPair_gates.
Qed.

Lemma level_gates_shared_and_independent_witness :
  exists wa,
    zap.AtomicLevel_SetLevel (AccessLevel consolePair) (-1)
      {| levels := [0; 2]; trace := [] |} = Ok (tt, wa) /\
    zapcore.Enabled (zapcore.atomicLevel 0) (-1) wa = Ok (true, wa) /\
    zapcore.Enabled (zapcore.atomicLevel 1) 1 wa = Ok (false, wa).
Proof.
  destruct (level_gates_shared_and_independent
              [WithConsoleForAccess true; WithConsoleForError true]
              emptyWorld _ _ _ (-1) eq_refl New_run_with_consoles)
    as [accessL [errorL [wa [we [Ha [He [_ [_ [_ [Hset [Hgate _]]]]]]]]]]].
  injection Ha as <-. injection He as <-.
  exists wa. split; [exact Hset|].
  split; [exact (proj1 (Hgate (-1)))|exact (proj2 (Hgate 1))].
Defined.

(** X4. When the zap options accumulated by the option list only set fields
    of the logger, [New] performs no input or output and allocates exactly
    two level cells, both fresh: the trace is unchanged, every cell that
    existed keeps its value, and the cells of the new pair did not exist
    before (so the gates of pairs built earlier are not shared with the new
    pair). *)
Theorem New_allocates_two_fresh_cells
    (opts : list Option) (w w' : World) (p : Pair) (e : option builtin.error) :
  forallb zap.inert (zapOpts (applyOptions opts initialCfg)) = true ->
  New_run (map Some opts) w = Ok ((p, e), w') ->
  trace w' = trace w /\
  List.length (levels w') = (List.length (levels w) + 2)%nat /\
  (forall n lvl,
     nth_error (levels w) n = Some lvl -> nth_error (levels w') n = Some lvl) /\
  nth_error (levels w) (zap.cell (AccessLevel p)) = None /\
  nth_error (levels w) (zap.cell (ErrorLevel p)) = None.
Proof.
  intros Hi H.
  destruct (New_run_inert_result opts w w' p e Hi H) as [-> [_ ->]].
  unfold afterNew, builtPair. cbn [AccessLevel ErrorLevel zap.cell levels trace].
  split; [reflexivity|]. split.
  - rewrite !length_app. cbn. lia.
  - split.
    + intros n lvl Hn. rewrite <- app_assoc. apply nth_error_app_keep. exact Hn.
    + split.
      * exact (nth_error_length_None (levels w) 0).
      * exact (nth_error_length_None (levels w) 1).
Qed.

Lemma New_allocates_two_fresh_cells_witness :
  nth_error [5; 1; 0; 2] 1 = Some 1 /\
  nth_error [5; 1] 2 = None.
Proof.
  destruct (New_allocates_two_fresh_cells [] {| levels := [5; 1]; trace := [] |}
              _ _ _ eq_refl eq_refl) as [_ [_ [Hkeep [Hfresh _]]]].
  split; [exact (Hkeep 1%nat 1 eq_refl)|exact Hfresh].
Defined.

(** ** Options, continued *)

(** X5. A field that no option of the list touches keeps the value it had:
    each constructor assigns to the fields it is documented to set and to no
    other. *)
Theorem untouched_fields_keep_value
    (opts : list OptionCall) (f : Field) (c : buildCfg) :
  lastTouching f opts = None ->
  field f (applyOptions (map call opts) c) = field f c.
Proof. apply lastTouching_None_field. Qed.

Lemma untouched_fields_keep_value_witness :
  field f_enc
    (applyOptions
       (map call [CallWithAccessFile "a.log" 10 2 7 false;
                  CallWithInitialLevels (-1) 1;
                  CallWithZapOptions [zap.Development]]) initialCfg)
  = defaultEncoder.
Proof.
  exact (untouched_fields_keep_value
           [CallWithAccessFile "a.log" 10 2 7 false;
            CallWithInitialLevels (-1) 1;
            CallWithZapOptions [zap.Development]] f_enc initialCfg eq_refl).
Defined.

(** X6. Two options that touch no common field commute: the order of the
    option list matters only among options on the same field. *)
Theorem disjoint_options_commute (o1 o2 : OptionCall) (c : buildCfg) :
  disjointCalls o1 o2 = true ->
  call o1 (call o2 c) = call o2 (call o1 c).
Proof.
  destruct o1, o2; cbn; intros H; try discriminate H; reflexivity.
Qed.

Lemma disjoint_options_commute_witness :
  WithAccessFile "a.log" (-5) 2 7 true (WithInitialLevels 1 3 initialCfg)
  = WithInitialLevels 1 3 (WithAccessFile "a.log" (-5) 2 7 true initialCfg).
Proof.
  exact (disjoint_options_commute (CallWithAccessFile "a.log" (-5) 2 7 true)
           (CallWithInitialLevels 1 3) initialCfg eq_refl).
Defined.

Lemma clamp_idempotent (n : Z) :
  (if (if n <? 0 then 0 else n) <? 0 then 0 else (if n <? 0 then 0 else n))
  = (if n <? 0 then 0 else n).
Proof. destruct (n <? 0) eqn:E; [reflexivity|]. rewrite E; reflexivity. Qed.

(** X7. Every option other than [WithZapOptions] is idempotent: applying it
    a second time changes nothing.  [WithZapOptions] is not: a second
    application appends its arguments once more. *)
Theorem options_idempotent_except_zapOpts (o : OptionCall) (c : buildCfg) :
  (touches o f_zapOpts = false -> call o (call o c) = call o c) /\
  (forall l, o = CallWithZapOptions l ->
     zapOpts (call o (call o c)) = (zapOpts c ++ l) ++ l).
Proof.
  split.
  - destruct o; cbn; intros H; try discriminate H;
      unfold WithAccessFile, WithErrorFile; cbn; rewrite ?clamp_idempotent;
      reflexivity.
  - intros l ->. reflexivity.
Qed.

Lemma options_idempotent_except_zapOpts_witness :
  WithErrorFile "e.log" (-5) 2 (-7) true
    (WithErrorFile "e.log" (-5) 2 (-7) true initialCfg)
  = WithErrorFile "e.log" (-5) 2 (-7) true initialCfg /\
  zapOpts (WithZapOptions [zap.Development]
             (WithZapOptions [zap.Development] initialCfg))
  = [zap.Development; zap.Development].
Proof.
  split.
  - exact (proj1 (options_idempotent_except_zapOpts
                    (CallWithErrorFile "e.log" (-5) 2 (-7) true) initialCfg)
                 eq_refl).
  - exact (proj2 (options_idempotent_except_zapOpts
                    (CallWithZapOptions [zap.Development]) initialCfg)
                 [zap.Development] eq_refl).
Defined.

Lemma clamp_nonneg (n : Z) : 0 <= (if n <? 0 then 0 else n).
Proof. destruct (Z.ltb_spec n 0); lia. Qed.

Lemma call_keeps_rotation_nonneg (o : OptionCall) (c : buildCfg) :
  rotation_nonneg (access c) /\ rotation_nonneg (error c) ->
  rotation_nonneg (access (call o c)) /\ rotation_nonneg (error (call o c)).
Proof.
  intros [Ha He]. destruct o; cbn; split; try assumption;
    unfold rotation_nonneg; cbn; repeat split; apply clamp_nonneg.
Qed.

Lemma applyOptions_keeps_rotation_nonneg (opts : list OptionCall) (c : buildCfg) :
  rotation_nonneg (access c) /\ rotation_nonneg (error c) ->
  rotation_nonneg (access (applyOptions (map call opts) c)) /\
  rotation_nonneg (error (applyOptions (map call opts) c)).
Proof.
  revert c. induction opts as [|o rest IH]; intros c H; [exact H|].
  cbn [map]. rewrite applyOptions_cons. apply IH.
  apply call_keeps_rotation_nonneg; exact H.
Qed.

(** X8. Whatever options are given, in whatever order and with whatever
    (also negative) numbers, the configuration [New] folds has no negative
    size, backup count or age in either rotation configuration, so the
    rotation collaborator is never configured with a negative value. *)
Theorem folded_rotation_never_negative (opts : list OptionCall) :
  let cfg := applyOptions (map call opts) initialCfg in
  rotation_nonneg (access cfg) /\ rotation_nonneg (error cfg) /\
  0 <= lumberjack.MaxSize (rotator (access cfg)) /\
  0 <= lumberjack.MaxBackups (rotator (access cfg)) /\
  0 <= lumberjack.MaxAge (rotator (access cfg)) /\
  0 <= lumberjack.MaxSize (rotator (error cfg)) /\
  0 <= lumberjack.MaxBackups (rotator (error cfg)) /\
  0 <= lumberjack.MaxAge (rotator (error cfg)).
Proof.
  cbv zeta.
  destruct (applyOptions_keeps_rotation_nonneg opts initialCfg) as [Ha He].
  - unfold rotation_nonneg; cbn; lia.
  - split; [exact Ha|]. split; [exact He|].
    destruct Ha as [? [? ?]], He as [? [? ?]]. cbn. repeat split; assumption.
Qed.

Lemma enc_applyOptions (opts : list OptionCall) (c : buildCfg) :
  enc (applyOptions (map call opts) c) = lastEncoder opts (enc c).
Proof.
  revert c. induction opts as [|o rest IH]; intros c; [reflexivity|].
  cbn [map]. rewrite applyOptions_cons, IH. destruct o; reflexivity.
Qed.


(** X9. When the zap options handed to the [WithZapOptions] calls of the
    list only set fields of the logger, the cores of both loggers [New]
    returns encode with one and the same JSON encoder configuration: the
    argument of the last [WithEncoder] of the option list, replaced
    wholesale, or the default configuration when the list has none. *)
Theorem both_cores_use_last_encoder (opts : list OptionCall) (w : World) :
  forallb zap.inert (zapArgs opts) = true ->
  exists p accessL errorL w',
    New_run (map Some (map call opts)) w = Ok ((p, None), w') /\
    Access p = Some accessL /\ Error p = Some errorL /\
    zapcore.enc_of (zap.core accessL)
      = zapcore.NewJSONEncoder (lastEncoder opts defaultEncoder) /\
    zapcore.enc_of (zap.core errorL)
      = zapcore.NewJSONEncoder (lastEncoder opts defaultEncoder).
Proof.
  intros Hi.
  assert (Hi' : forallb zap.inert
                  (zapOpts (applyOptions (map call opts) initialCfg)) = true).
  { rewrite zapOpts_applyOptions. exact Hi. }
  do 4 eexists. split.
  - rewrite (New_run_inert (map call opts) w Hi'). exact (New_computes _ w).
  - cbn [builtPair Access Error zap.core makeCore zapcore.enc_of].
    rewrite enc_applyOptions. repeat split; reflexivity.
Qed.

Lemma both_cores_use_last_encoder_witness :
  exists p accessL errorL w',
    New_run (map Some (map call [CallWithEncoder lowercaseEncoder;
                                 CallWithZapOptions [zap.Development];
                                 CallWithConsoleForError true]))
      emptyWorld = Ok ((p, None), w') /\
    Access p = Some accessL /\ Error p = Some errorL /\
    zapcore.enc_of (zap.core accessL) = zapcore.NewJSONEncoder lowercaseEncoder /\
    zapcore.enc_of (zap.core errorL) = zapcore.NewJSONEncoder lowercaseEncoder.
Proof.
  exact (both_cores_use_last_encoder
           [CallWithEncoder lowercaseEncoder;
            CallWithZapOptions [zap.Development];
            CallWithConsoleForError true]
           emptyWorld eq_refl).
Defined.


(** ** The failure object of Sync *)

(** X11. A failure object returned by [Sync] holds one or two underlying
    failures, never none and never more: its message is the generic summary
    exactly when it holds two, and the message of the single failure
    otherwise. *)
Theorem Sync_failure_holds_one_or_two
    (env : Env) (p : Pair) (w w' : World) (se : syncError) :
  Pair_Sync env p w = Ok (Some se, w') ->
  (exists x, errs se = [x] /\ syncError_Error se = builtin.Error x) \/
  (exists x y, errs se = [x; y] /\
     syncError_Error se = "multiple sync errors occurred").
Proof.
  unfold Pair_Sync, bind, ret.
  destruct (Access p) as [a|], (Error p) as [e|].
  - destruct (zap.Logger_Sync env (Some a) w) as [[ra w1]|]; [|discriminate].
    destruct (zap.Logger_Sync env (Some e) w1) as [[re w2]|]; [|discriminate].
    destruct ra as [x|], re as [y|]; cbn; intros H; try discriminate H;
      injection H as <- _; [right|left|left]; repeat eexists.
  - destruct (zap.Logger_Sync env (Some a) w) as [[ra w1]|]; [|discriminate].
    destruct ra as [x|]; cbn; intros H; try discriminate H.
    injection H as <- _. left; repeat eexists.
  - destruct (zap.Logger_Sync env (Some e) w) as [[re w1]|]; [|discriminate].
    destruct re as [y|]; cbn; intros H; try discriminate H.
    injection H as <- _. left; repeat eexists.
  - cbn. discriminate.
Qed.

Lemma Sync_failure_holds_one_or_two_witness :
  (exists x,
     [builtin.errorString "sync /dev/stdout: invalid argument";
      builtin.errorString "sync /dev/stderr: invalid argument"] = [x] /\
     syncError_Error
       {| errs := [builtin.errorString "sync /dev/stdout: invalid argument";
                   builtin.errorString "sync /dev/stderr: invalid argument"] |}
     = builtin.Error x) \/
  (exists x y,
     [builtin.errorString "sync /dev/stdout: invalid argument";
      builtin.errorString "sync /dev/stderr: invalid argument"] = [x; y] /\
     syncError_Error
       {| errs := [builtin.errorString "sync /dev/stdout: invalid argument";
                   builtin.errorString "sync /dev/stderr: invalid argument"] |}
     = "multiple sync errors occurred").
Proof.
  exact (Sync_failure_holds_one_or_two env_both_fail consolePair emptyWorld _ _
           Sync_both_fail).
Defined.
